(** * Hypothesis-testing notebook: Z test, Student's t test, conditional_function

    A shallow embedding of the code cells of the notebook
    (Z score, Z-test p-value, t statistic, t-test p-value, and
    [conditional_function]).

    Numbers.  Python and NumPy compute on IEEE-754 doubles.  The embedding
    keeps the special values of that format ([PInf], [NInf], [NaN]) and the
    way every operation treats them, and idealises the finite values as
    real numbers with exact arithmetic: rounding and overflow are not
    modelled.  A finite zero stands for +0.0 (the only zero the cells can
    divide by is a square root or a count). *)

From Stdlib Require Import Reals Lra Lia List ZArith Bool.
Import ListNotations.
Local Open Scope R_scope.

(** ** Comparisons on reals as booleans *)

Definition Rltb (x y : R) : bool := if Rlt_dec x y then true else false.
Definition Rleb (x y : R) : bool := if Rle_dec x y then true else false.
Definition Req_b (x y : R) : bool := if Req_dec_T x y then true else false.

(** ** Doubles: finite values, infinities and NaN *)

Inductive float64 : Type :=
| Fin (r : R)
| PInf
| NInf
| NaN.

Definition fopp (x : float64) : float64 :=
  match x with
  | Fin r => Fin (- r)
  | PInf => NInf
  | NInf => PInf
  | NaN => NaN
  end.

Definition fadd (x y : float64) : float64 :=
  match x, y with
  | NaN, _ | _, NaN => NaN
  | Fin a, Fin b => Fin (a + b)
  | PInf, NInf | NInf, PInf => NaN
  | PInf, _ | _, PInf => PInf
  | NInf, _ | _, NInf => NInf
  end.

Definition fsub (x y : float64) : float64 := fadd x (fopp y).

(** The sign of a product with an infinity; a finite zero times an
    infinity is NaN. *)
Definition inf_times (positive : bool) (r : R) : float64 :=
  if Req_b r 0 then NaN
  else if Bool.eqb positive (Rltb 0 r) then PInf else NInf.

Definition fmul (x y : float64) : float64 :=
  match x, y with
  | NaN, _ | _, NaN => NaN
  | Fin a, Fin b => Fin (a * b)
  | PInf, Fin r | Fin r, PInf => inf_times true r
  | NInf, Fin r | Fin r, NInf => inf_times false r
  | PInf, PInf | NInf, NInf => PInf
  | PInf, NInf | NInf, PInf => NInf
  end.

(** NumPy's true division: dividing by zero is no error, it gives an
    infinity (non-zero dividend) or NaN (0/0) with a warning only. *)
Definition fdiv (x y : float64) : float64 :=
  match x, y with
  | NaN, _ | _, NaN => NaN
  | Fin a, Fin b =>
      if Req_b b 0
      then if Req_b a 0 then NaN else if Rltb 0 a then PInf else NInf
      else Fin (a / b)
  | Fin _, (PInf | NInf) => Fin 0
  | (PInf | NInf), (PInf | NInf) => NaN
  | PInf, Fin b => if Rleb 0 b then PInf else NInf
  | NInf, Fin b => if Rleb 0 b then NInf else PInf
  end.

Definition fsqrt (x : float64) : float64 :=
  match x with
  | Fin r => if Rltb r 0 then NaN else Fin (sqrt r)
  | PInf => PInf
  | NInf | NaN => NaN
  end.

(** [<] on doubles: false as soon as one side is NaN. *)
Definition fltb (x y : float64) : bool :=
  match x, y with
  | NaN, _ | _, NaN => false
  | Fin a, Fin b => Rltb a b
  | NInf, (Fin _ | PInf) => true
  | Fin _, PInf => true
  | _, _ => false
  end.

(** ** Python exceptions *)

Inductive exn : Type :=
| ZeroDivisionError.

Inductive result (A : Type) : Type :=
| Ok (a : A)
| Raise (e : exn).

Arguments Ok {A} a.
Arguments Raise {A} e.

Definition bind {A B : Type} (m : result A) (k : A -> result B) : result B :=
  match m with
  | Ok a => k a
  | Raise e => Raise e
  end.

Notation "x <- m ;; k" := (bind m (fun x => k))
  (at level 61, m at next level, right associativity).

(** [/] on Python floats raises on a zero divisor. *)
Definition py_truediv (a b : R) : result R :=
  if Req_b b 0 then Raise ZeroDivisionError else Ok (a / b).

(** ** Distribution functions

    [scipy.stats.norm.cdf] is library code: the cells only rely on it being
    the distribution function of a law symmetric about 0 with a positive
    density.  The class states exactly that. *)

Class SymmetricCdf (F : R -> R) : Prop := {
  cdf_range : forall x, 0 <= F x <= 1;
  cdf_increasing : forall x y, x < y -> F x < F y;
  cdf_symmetric : forall x, F (- x) = 1 - F x
}.

(** ** The Z test *)

Module ZTest.

(** [Z = abs(x0 - mu) / sigma] on Python floats. *)
Definition Z (x0 mu sigma : R) : result R :=
  py_truediv (Rabs (x0 - mu)) sigma.

Section Cdf.

Variable norm_cdf : R -> R.

(** [pvalue = stats.norm.cdf(-Z) + (1. - stats.norm.cdf(Z))] *)
Definition pvalue (Z : R) : R :=
  norm_cdf (- Z) + (1 - norm_cdf Z).

(** The two code cells of the example in sequence: what they print. *)
Definition cells (x0 mu sigma : R) : result (R * R) :=
  z <- Z x0 mu sigma ;;
  Ok (z, pvalue z).

End Cdf.

End ZTest.

(** ** NumPy reductions used by the t-test cell *)

Definition np_sum (a : list float64) : float64 := fold_left fadd a (Fin 0).

(** [np.mean(a)]: the sum over the count; NaN (0/0) on an empty array. *)
Definition np_mean (a : list R) : float64 :=
  fdiv (np_sum (map Fin a)) (Fin (INR (length a))).

(** [np.var(a, ddof)]: the mean, the squared deviations from it, their sum,
    divided by [max(count - ddof, 0)]. *)
Definition np_var (a : list R) (ddof : Z) : float64 :=
  let rcount := Z.of_nat (length a) in
  let arrmean := fdiv (np_sum (map Fin a)) (Fin (IZR rcount)) in
  let x := map (fun ai => fsub (Fin ai) arrmean) a in
  let ret := np_sum (map (fun xi => fmul xi xi) x) in
  fdiv ret (Fin (IZR (Z.max (rcount - ddof) 0))).

(** ** Student's t distribution function

    [scipy.stats.t.cdf(x, df)] is library code.  For a whole number [nu]
    of degrees of freedom the density of the law is proportional to
    (1 + t^2/nu)^(-(nu+1)/2); with theta = atan (t / sqrt nu) the
    distribution function is

      1/2 + I(theta) / (2 I(PI/2)),   I(x) = integral of cos^(nu-1) on [0, x].

    [cos_int n] is that integral, by the reduction formula
    n I_n = cos^(n-1) sin + (n-1) I_(n-2).  (Lemmas [cos_int_deriv] and
    [cos_int_0] below show that it is the integral, [t_cdf_deriv] that
    [t_cdf] has the density [t_pdf], [t_cdf_symmetric] that it is a
    symmetric distribution function, and [t_cdf_4_table] checks a
    tabulated value.) *)

Fixpoint cos_int (n : nat) (x : R) : R :=
  match n with
  | O => x
  | S O => sin x
  | S (S k as p) => (cos x ^ p * sin x + INR p * cos_int k x) / INR n
  end.

Definition t_cdf (t : R) (nu : nat) : R :=
  1 / 2 +
  cos_int (nu - 1) (atan (t / sqrt (INR nu))) / (2 * cos_int (nu - 1) (PI / 2)).

Definition t_pdf (t : R) (nu : nat) : R :=
  (/ sqrt (1 + t * t / INR nu)) ^ (nu + 1) /
  (2 * cos_int (nu - 1) (PI / 2) * sqrt (INR nu)).

(** The library call on doubles: NaN for df <= 0 or a NaN argument, the
    limits 0 and 1 at the infinities. *)
Definition stats_t_cdf (x : float64) (df : Z) : float64 :=
  if (df <=? 0)%Z then NaN
  else match x with
       | NaN => NaN
       | PInf => Fin 1
       | NInf => Fin 0
       | Fin t => Fin (t_cdf t (Z.to_nat df))
       end.

(** ** The t test *)

Module TTest.

(** [sigma = np.sqrt(np.var(samples, ddof=1))] *)
Definition sigma (samples : list R) : float64 := fsqrt (np_var samples 1).

(** [sample_mean = np.mean(samples)] *)
Definition sample_mean (samples : list R) : float64 := np_mean samples.

(** [n = len(samples)] *)
Definition n (samples : list R) : BinNums.Z := Z.of_nat (length samples).

(** [T = (sample_mean - mu) / (sigma / np.sqrt(n))] *)
Definition T (samples : list R) (mu : R) : float64 :=
  fdiv (fsub (sample_mean samples) (Fin mu))
       (fdiv (sigma samples) (fsqrt (Fin (IZR (n samples))))).

(** [pvalue = stats.t.cdf(T, n - 1) + (1. - stats.t.cdf(-T, n - 1))] *)
Definition pvalue (T : float64) (n : BinNums.Z) : float64 :=
  fadd (stats_t_cdf T (n - 1)) (fsub (Fin 1) (stats_t_cdf (fopp T) (n - 1))).

(** The two code cells of the example in sequence: what they print. *)
Definition cells (samples : list R) (mu : R) : float64 * float64 :=
  let t := T samples mu in
  (t, pvalue t (n samples)).

End TTest.

(** ** The inputs of the notebook's two examples *)

Module Example.

(** Z test: [x0 = 1045.], [mu = 1060.], [sigma = 3.] *)
Definition x0 : R := 1045.
Definition mu : R := 1060.
Definition sigma : R := 3.

(** t test: [samples = np.array([1035., 1050., 1020., 1055., 1046.])],
    with the same [mu]. *)
Definition samples : list R := [1035; 1050; 1020; 1055; 1046].

(** The exact values the t-test cells reach on [samples]: the statistic
    is [- q], with theta = atan (- q / sqrt 4) one has sin theta = [- u],
    and the p-value is [p]. *)
Definition q : R := (94 / 5) / (sqrt (1947 / 10) / sqrt 5).
Definition u : R := q / sqrt (4 + q * q).
Definition p : R := 1 - u * (29354 / 25460).

End Example.

(** ** conditional_function *)

(** The [return] statements of the function, in source order, and the
    fall-through at the end of the body (Python then returns [None]). *)
Inductive branch : Type :=
| ret_exp
| ret_square
| ret_zero
| ret_sqrt
| ret_exp_neg
| fall_through.

(** Which [return] a call reaches. *)
Definition conditional_branch (x : R) : branch :=
  if Rltb x 0 then ret_exp
  else if Rltb x 3 then ret_square
  else if Req_b x 3 then ret_zero
  else if Rltb 3 x then ret_sqrt
  else if Rleb 5 x then ret_exp_neg
  else fall_through.

Definition conditional_function (x : R) : option R :=
  if Rltb x 0 then Some (exp x)
  else if Rltb x 3 then Some (x ^ 2)
  else if Req_b x 3 then Some 0
  else if Rltb 3 x then Some (sqrt x)
  else if Rleb 5 x then Some (exp (- x))
  else None.

(** What each [return] evaluates. *)
Definition branch_value (b : branch) (x : R) : option R :=
  match b with
  | ret_exp => Some (exp x)
  | ret_square => Some (x ^ 2)
  | ret_zero => Some 0
  | ret_sqrt => Some (sqrt x)
  | ret_exp_neg => Some (exp (- x))
  | fall_through => None
  end.

(** ** The formulas of the specification, for comparison *)

Definition Rsum (l : list R) : R := fold_right Rplus 0 l.

(** x-bar *)
Definition mean_spec (l : list R) : R := Rsum l / INR (length l).

(** s = sqrt (sum (x_i - x-bar)^2 / (n - 1)) *)
Definition std_spec (l : list R) : R :=
  sqrt (Rsum (map (fun x => (x - mean_spec l) ^ 2) l) / (INR (length l) - 1)).

(** T = (x-bar - mu) / (s / sqrt n) *)
Definition T_spec (l : list R) (mu : R) : R :=
  (mean_spec l - mu) / (std_spec l / sqrt (INR (length l))).

(** Z = (sample_mean - mu) / sigma *)
Definition Z_spec (sample_mean mu sigma : R) : R := (sample_mean - mu) / sigma.

(** The two-sided p-value 2 (1 - Phi |Z|). *)
Definition two_sided_spec (Phi : R -> R) (z : R) : R := 2 * (1 - Phi (Rabs z)).

(** [decide]: true iff the p-value is below alpha.  It is also the rule
    of the notebook's introduction: "If the p-value is smaller than the
    level of significance (e.g. 5%), then the decision is to reject the
    null hypothesis". *)
Definition decide (p_value : float64) (alpha : R) : bool :=
  fltb p_value (Fin alpha).

(** ** Exceptions of the later cells

    Indexing a tuple or an array out of range raises [IndexError];
    [argmax] of an empty array raises [ValueError]. *)

Inductive py_error : Type :=
| PyZeroDivisionError
| PyIndexError
| PyValueError.

Inductive outcome (A : Type) : Type :=
| Return (a : A)
| Except (e : py_error).

Arguments Return {A} a.
Arguments Except {A} e.

Definition obind {A B : Type} (m : outcome A) (k : A -> outcome B)
  : outcome B :=
  match m with
  | Return a => k a
  | Except e => Except e
  end.

Notation "x <-- m ;; k" := (obind m (fun x => k))
  (at level 61, m at next level, right associativity).

(** [a[i]] for a non-negative index. *)
Definition py_index {A : Type} (a : list A) (i : nat) : outcome A :=
  match nth_error a i with
  | Some v => Return v
  | None => Except PyIndexError
  end.

(** ** The plots of the Z-test cell *)

Module ZPlot.

(** [w = mu - x0] *)
Definition w (x0 mu : R) : R := mu - x0.

(** The shaded part of the measurement plot:
    [where=np.abs(x - mu) > w]. *)
Definition shaded (x0 mu x : R) : bool := Rltb (w x0 mu) (Rabs (x - mu)).

(** The shaded part of the plot of the statistic:
    [where=np.abs(xs) > np.abs(Z)]. *)
Definition shaded_statistic (Z xs : R) : bool := Rltb (Rabs Z) (Rabs xs).

End ZPlot.

(** ** conditional_function as an integrand *)

(** The value of [conditional_function] as a real function (0 where
    Python would return [None]). *)
Definition conditional_value (x : R) : R :=
  match conditional_function x with
  | Some y => y
  | None => 0
  end.

(** ** The nquad cell *)

Module NQuad.

(** [func = lambda x0, x1, x2, x3 : x0**2 + x1*x2 - x3**3 + np.sin(x0)
      + (1 if (x0 - .2*x3 - .5 - .25*x1 > 0) else 0)] *)
Definition func (x0 x1 x2 x3 : R) : R :=
  x0 ^ 2 + x1 * x2 - x3 ^ 3 + sin x0 +
  (if Rltb 0 (x0 - 0.2 * x3 - 0.5 - 0.25 * x1) then 1 else 0).

(** [points = [[lambda x1, x2, x3 : 0.2*x3 + 0.5 + 0.25*x1], [], [], []]]:
    the lambda of the first entry. *)
Definition points (x1 x2 x3 : R) : R := 0.2 * x3 + 0.5 + 0.25 * x1.

(** [def opts0( *args, **kwargs ):
       return {'points' : [0.2*args[2] + 0.5 + 0.25*args[0]]}]:
    the list under the key ['points']. *)
Definition opts0 (args : list R) : outcome (list R) :=
  a2 <-- py_index args 2 ;;
  a0 <-- py_index args 0 ;;
  Return [0.2 * a2 + 0.5 + 0.25 * a0].

(** The integration ranges of the call,
    [[[0,1], [-1,1], [.13,.8], [-.15,1]]], one per variable. *)
Definition ranges : list (R * R) := [(0, 1); (-1, 1); (0.13, 0.8); (-0.15, 1)].

Definition in_range (i : nat) (x : R) : Prop :=
  match nth_error ranges i with
  | Some (lo, hi) => lo <= x <= hi
  | None => False
  end.

End NQuad.

(** ** The first-order ODE cell *)

Module Decay.

(** [def derivative(ypos, time): return -2 * ypos] *)
Definition derivative (ypos time : R) : R := -2 * ypos.

(** [y0=1] in the call of [odeint]. *)
Definition y0 : R := 1.

End Decay.

(** ** The damped mass-spring cells *)

Module Spring.

(** [mass = 0.5], [kspring = 4], [cviscous = 0.4] *)
Definition mass : R := 0.5.
Definition kspring : R := 4.
Definition cviscous : R := 0.4.

(** [omega = np.sqrt(kspring / mass)]: Python's division, NumPy's root. *)
Definition omega (kspring mass : R) : result float64 :=
  r <- py_truediv kspring mass ;;
  Ok (fsqrt (Fin r)).

(** [eps = cviscous / (2 * mass * np.sqrt(kspring/mass))]: the divisor is
    a NumPy double, so is the division. *)
Definition eps (cviscous kspring mass : R) : result float64 :=
  r <- py_truediv kspring mass ;;
  Ok (fdiv (Fin cviscous) (fmul (Fin (2 * mass)) (fsqrt (Fin r)))).

(** [def derivative(yvec, time, eps, omega):
       return(yvec[1], -eps * omega * yvec[1] - omega**2 * yvec[0])] *)
Definition derivative (yvec : list R) (time eps omega : R)
  : outcome (R * R) :=
  v <-- py_index yvec 1 ;;
  v' <-- py_index yvec 1 ;;
  x <-- py_index yvec 0 ;;
  Return (v, - eps * omega * v' - omega ^ 2 * x).

(** [yinit = (1, 0)] *)
Definition yinit : list R := [1; 0].

(** The mechanical energy of the state (x, v), for unit mass. *)
Definition energy (omega x v : R) : R := (omega ^ 2 * x ^ 2 + v ^ 2) / 2.

End Spring.

(** ** The Fourier cells *)

(** A complex number as its real and imaginary parts. *)
Definition complex : Type := (R * R)%type.

Definition Czero : complex := (0, 0).
Definition Cconj (c : complex) : complex := (fst c, - snd c).

(** [np.abs] of a complex number. *)
Definition Cabs (c : complex) : R := sqrt (fst c ^ 2 + snd c ^ 2).

(** [fftfreq(n, d)]: [val = 1.0/(n*d)], [N = (n-1)//2 + 1], the integers
    [0 .. N-1] followed by [-(n//2) .. -1], all times [val]. *)
Definition fftfreq_ints (n : nat) : list BinNums.Z :=
  map Z.of_nat (seq 0 ((n - 1) / 2 + 1)) ++
  map (fun i => (Z.of_nat i - Z.of_nat (n / 2))%Z) (seq 0 (n / 2)).

Definition fftfreq (n : nat) (d : R) : outcome (list R) :=
  if Req_b (INR n * d) 0 then Except PyZeroDivisionError
  else Return (map (fun k => IZR k * (1 / (INR n * d))) (fftfreq_ints n)).

(** [np.where(a > 0)]: the positions of the positive entries. *)
Fixpoint where_pos_from (i : nat) (a : list R) : list nat :=
  match a with
  | [] => []
  | x :: r =>
      if Rltb 0 x then i :: where_pos_from (S i) r
      else where_pos_from (S i) r
  end.

Definition np_where_pos (a : list R) : list nat := where_pos_from 0 a.

(** [a[idx]] for an array of positions. *)
Fixpoint take_positions {A : Type} (a : list A) (idx : list nat)
  : outcome (list A) :=
  match idx with
  | [] => Return []
  | i :: r =>
      v <-- py_index a i ;;
      vs <-- take_positions a r ;;
      Return (v :: vs)
  end.

(** [a.argmax()]: the first position of the largest entry. *)
Fixpoint argmax_from (best : nat) (bestv : R) (i : nat) (a : list R) : nat :=
  match a with
  | [] => best
  | x :: r =>
      if Rltb bestv x then argmax_from i x (S i) r
      else argmax_from best bestv (S i) r
  end.

Definition argmax (a : list R) : outcome nat :=
  match a with
  | [] => Except PyValueError
  | x :: r => Return (argmax_from 0 x 1 r)
  end.

Module Fourier.

(** [time_step = 0.05] *)
Definition time_step : R := 0.05.

(** [power = np.abs(sig_fft)] *)
Definition power (sig_fft : list complex) : list R := map Cabs sig_fft.

(** [pos_mask = np.where(sample_freq > 0)], [freqs = sample_freq[pos_mask]],
    [powes = power[pos_mask]], [peak_freq = freqs[powes.argmax()]] *)
Definition peak_freq (sample_freq power : list R) : outcome R :=
  let pos_mask := np_where_pos sample_freq in
  freqs <-- take_positions sample_freq pos_mask ;;
  powes <-- take_positions power pos_mask ;;
  i <-- argmax powes ;;
  py_index freqs i.

(** [high_freq_fft = sig_fft.copy()],
    [high_freq_fft[np.abs(sample_freq) > peak_freq] = 0]: a boolean mask
    that is not empty must have the length of the array it indexes
    (IndexError otherwise); NumPy does not check the length of an empty
    mask, which selects nothing. *)
Definition mask (sample_freq : list R) (peak_freq : R) : list bool :=
  map (fun f => Rltb peak_freq (Rabs f)) sample_freq.

Fixpoint zero_where (m : list bool) (a : list complex) : list complex :=
  match m, a with
  | b :: m', c :: a' => (if b then Czero else c) :: zero_where m' a'
  | _, _ => []
  end.

Definition high_freq_fft (sample_freq : list R) (peak_freq : R)
    (sig_fft : list complex) : outcome (list complex) :=
  if Nat.eqb (length sample_freq) (length sig_fft)
  then Return (zero_where (mask sample_freq peak_freq) sig_fft)
  else if Nat.eqb (length sample_freq) 0 then Return sig_fft
  else Except PyIndexError.

End Fourier.

(** The two Fourier cells after the transform, in sequence: the sample
    frequencies of [sig_fft], the peak, the filtered transform. *)
Definition filter_cells (sig_fft : list complex) (time_step : R)
  : outcome (list complex) :=
  sample_freq <-- fftfreq (length sig_fft) time_step ;;
  peak_freq <-- Fourier.peak_freq sample_freq (Fourier.power sig_fft) ;;
  Fourier.high_freq_fft sample_freq peak_freq sig_fft.

(** The symmetry of the transform of a real signal:
    a[(n - k) mod n] is the conjugate of a[k]. *)
Definition hermitian (a : list complex) : Prop :=
  forall k, (k < length a)%nat ->
    nth ((length a - k) mod length a) a Czero = Cconj (nth k a Czero).

(** ** The diagonal matrix of the singular values (algebra notebook)

    [D = np.zeros((m, n))], then
    [for i in range(min(m, n)): D[i, i] = S[i]]. *)

Definition matrix : Type := list (list R).

Definition np_zeros (m n : nat) : matrix := repeat (repeat 0 n) m.

Fixpoint list_set {A : Type} (l : list A) (i : nat) (v : A) : list A :=
  match l, i with
  | [], _ => []
  | _ :: r, O => v :: r
  | x :: r, S j => x :: list_set r j v
  end.

(** [D[i, j] = v]: IndexError outside the shape. *)
Definition set_item (D : matrix) (i j : nat) (v : R) : outcome matrix :=
  match nth_error D i with
  | Some row =>
      if (j <? length row)%nat then Return (list_set D i (list_set row j v))
      else Except PyIndexError
  | None => Except PyIndexError
  end.

Fixpoint diag_loop (S : list R) (D : matrix) (range : list nat)
  : outcome matrix :=
  match range with
  | [] => Return D
  | i :: r =>
      s <-- py_index S i ;;
      D' <-- set_item D i i s ;;
      diag_loop S D' r
  end.

Definition svd_D (m n : nat) (S : list R) : outcome matrix :=
  diag_loop S (np_zeros m n) (seq 0 (Nat.min m n)).

(** [D[i, j]] inside the shape. *)
Definition entry (D : matrix) (i j : nat) : R := nth j (nth i D []) 0.

(** The state of the loop before index [t]: the shape is m x n, the
    first [t] diagonal entries hold the singular values, all else is 0. *)
Definition diag_filled (m n : nat) (S : list R) (t : nat) (D : matrix)
  : Prop :=
  length D = m /\
  (forall i, (i < m)%nat -> length (nth i D []) = n) /\
  (forall i j, (i < m)%nat -> (j < n)%nat ->
     entry D i j = if ((i =? j) && (i <? t))%nat then nth i S 0 else 0).

(** ** The covariance matrix by hand (algebra notebook)

    [v_mean = v.mean(axis=1)[:, np.newaxis]], [w = v - v_mean],
    [cov = w.dot(w.T) / (p - 1)], for a two-dimensional array [v] given
    by its rows. *)

(** One row of [w]: the row minus its mean. *)
Definition center (row : list R) : list float64 :=
  let m := np_mean row in
  map (fun x => fsub (Fin x) m) row.

(** One entry of [w.dot(w.T)]: the sum of the products of two rows. *)
Definition row_dot (a b : list float64) : float64 :=
  np_sum (map (fun ab => fmul (fst ab) (snd ab)) (combine a b)).

Definition cov_by_hand (v : list (list R)) (p : BinNums.Z)
  : list (list float64) :=
  let w := map center v in
  map (fun wi => map (fun wj => fdiv (row_dot wi wj) (Fin (IZR (p - 1)))) w) w.

Definition fentry (c : list (list float64)) (i j : nat) : float64 :=
  nth j (nth i c []) NaN.

(** * Properties *)

(** ** Boolean comparisons *)

Lemma Rltb_true (x y : R) : Rltb x y = true <-> x < y.
Proof. unfold Rltb; destruct (Rlt_dec x y); split; intros; try easy. Qed.

Lemma Rltb_false (x y : R) : Rltb x y = false <-> y <= x.
Proof.
  unfold Rltb; destruct (Rlt_dec x y); split; intros; try easy; lra.
Qed.

Lemma Rleb_true (x y : R) : Rleb x y = true <-> x <= y.
Proof. unfold Rleb; destruct (Rle_dec x y); split; intros; try easy. Qed.

Lemma Rleb_false (x y : R) : Rleb x y = false <-> y < x.
Proof.
  unfold Rleb; destruct (Rle_dec x y); split; intros; try easy; lra.
Qed.

Lemma Req_b_true (x y : R) : Req_b x y = true <-> x = y.
Proof. unfold Req_b; destruct (Req_dec_T x y); split; intros; try easy. Qed.

Lemma Req_b_false (x y : R) : Req_b x y = false <-> x <> y.
Proof. unfold Req_b; destruct (Req_dec_T x y); split; intros; try easy. Qed.

Ltac Rbool :=
  repeat match goal with
  | H : Rltb _ _ = true |- _ => apply Rltb_true in H
  | H : Rltb _ _ = false |- _ => apply Rltb_false in H
  | H : Rleb _ _ = true |- _ => apply Rleb_true in H
  | H : Rleb _ _ = false |- _ => apply Rleb_false in H
  | H : Req_b _ _ = true |- _ => apply Req_b_true in H
  | H : Req_b _ _ = false |- _ => apply Req_b_false in H
  end.

Lemma Rltb_eq_true (x y : R) : x < y -> Rltb x y = true.
Proof. apply Rltb_true. Qed.

Lemma Rltb_eq_false (x y : R) : y <= x -> Rltb x y = false.
Proof. apply Rltb_false. Qed.

Lemma Req_b_refl (x : R) : Req_b x x = true.
Proof. now apply Req_b_true. Qed.

Lemma Req_b_neq (x y : R) : x <> y -> Req_b x y = false.
Proof. apply Req_b_false. Qed.

(** ** Finite arithmetic stays finite *)

Lemma fdiv_Fin (a b : R) : b <> 0 -> fdiv (Fin a) (Fin b) = Fin (a / b).
Proof. intros Hb; simpl; now rewrite Req_b_neq. Qed.

Lemma fdiv_zero_zero : fdiv (Fin 0) (Fin 0) = NaN.
Proof. simpl; now rewrite Req_b_refl. Qed.

Lemma fsqrt_Fin (r : R) : 0 <= r -> fsqrt (Fin r) = Fin (sqrt r).
Proof. intros Hr; simpl; now rewrite Rltb_eq_false. Qed.

Lemma fold_fadd_Fin (l : list R) (a : R) :
  fold_left fadd (map Fin l) (Fin a) = Fin (a + Rsum l).
Proof.
  revert a; induction l as [|x l IH]; intros a; simpl.
  - f_equal; lra.
  - rewrite IH; f_equal; lra.
Qed.

Lemma np_sum_Fin (l : list R) : np_sum (map Fin l) = Fin (Rsum l).
Proof. unfold np_sum; rewrite fold_fadd_Fin; f_equal; lra. Qed.

Lemma Rsum_sq_nonneg (m : R) (l : list R) :
  0 <= Rsum (map (fun x => (x - m) ^ 2) l).
Proof.
  induction l as [|x l IH]; cbn [map Rsum fold_right]; [lra|].
  fold (Rsum (map (fun x => (x - m) ^ 2) l)).
  pose proof (pow2_ge_0 (x - m)); lra.
Qed.

Lemma INR_length_pos {A : Type} (l : list A) : l <> [] -> 0 < INR (length l).
Proof.
  destruct l; [easy|]; intros _.
  apply lt_0_INR; simpl; lia.
Qed.

(** ** The NumPy reductions on a sample *)

Lemma np_mean_nonempty (l : list R) :
  l <> [] -> np_mean l = Fin (mean_spec l).
Proof.
  intros Hl; unfold np_mean, mean_spec.
  rewrite np_sum_Fin, fdiv_Fin; [easy|].
  pose proof (INR_length_pos l Hl); lra.
Qed.

Lemma np_mean_empty : np_mean [] = NaN.
Proof. unfold np_mean; simpl. apply fdiv_zero_zero. Qed.

Lemma deviations_Fin (m : R) (l : list R) :
  map (fun xi => fmul xi xi) (map (fun ai => fsub (Fin ai) (Fin m)) l)
  = map Fin (map (fun x => (x - m) ^ 2) l).
Proof.
  rewrite !map_map; apply map_ext; intros a; simpl.
  f_equal; unfold Rminus; ring.
Qed.

Lemma np_var_ddof1 (l : list R) :
  (2 <= length l)%nat ->
  np_var l 1 =
  Fin (Rsum (map (fun x => (x - mean_spec l) ^ 2) l) / (INR (length l) - 1)).
Proof.
  intros Hn; unfold np_var.
  assert (Hl : l <> []) by (destruct l; simpl in *; [lia|easy]).
  rewrite np_sum_Fin, <- INR_IZR_INZ, fdiv_Fin
    by (pose proof (INR_length_pos l Hl); lra).
  fold (mean_spec l).
  rewrite deviations_Fin, np_sum_Fin.
  replace (Z.max (Z.of_nat (length l) - 1) 0) with (Z.of_nat (length l) - 1)%Z by lia.
  rewrite minus_IZR, <- INR_IZR_INZ.
  apply fdiv_Fin.
  apply le_INR in Hn; simpl in Hn; lra.
Qed.

Lemma var_spec_nonneg (l : list R) :
  (2 <= length l)%nat ->
  0 <= Rsum (map (fun x => (x - mean_spec l) ^ 2) l) / (INR (length l) - 1).
Proof.
  intros Hn. apply le_INR in Hn; simpl in Hn.
  apply Rmult_le_pos; [apply Rsum_sq_nonneg|].
  left; apply Rinv_0_lt_compat; lra.
Qed.

Lemma sigma_eq (l : list R) :
  (2 <= length l)%nat -> TTest.sigma l = Fin (std_spec l).
Proof.
  intros Hn; unfold TTest.sigma, std_spec.
  rewrite np_var_ddof1 by easy.
  apply fsqrt_Fin, var_spec_nonneg, Hn.
Qed.

Lemma sqrt_n_pos (l : list R) : (2 <= length l)%nat -> 0 < sqrt (INR (length l)).
Proof.
  intros Hn; apply sqrt_lt_R0. apply le_INR in Hn; simpl in Hn; lra.
Qed.

Lemma T_eq (l : list R) (mu : R) :
  (2 <= length l)%nat ->
  TTest.T l mu =
  fdiv (Fin (mean_spec l - mu)) (Fin (std_spec l / sqrt (INR (length l)))).
Proof.
  intros Hn; unfold TTest.T, TTest.sample_mean, TTest.n.
  assert (Hl : l <> []) by (destruct l; simpl in *; [lia|easy]).
  rewrite np_mean_nonempty, sigma_eq by easy.
  rewrite <- INR_IZR_INZ, fsqrt_Fin by (left; now apply INR_length_pos).
  rewrite fdiv_Fin by (pose proof (sqrt_n_pos l Hn); lra).
  reflexivity.
Qed.

Lemma T_finite (l : list R) (mu : R) :
  (2 <= length l)%nat -> std_spec l <> 0 ->
  TTest.T l mu = Fin (T_spec l mu).
Proof.
  intros Hn Hs; rewrite T_eq by easy.
  apply fdiv_Fin.
  pose proof (sqrt_n_pos l Hn).
  intros H0; apply Hs.
  apply Rmult_eq_compat_r with (r := sqrt (INR (length l))) in H0.
  unfold Rdiv in H0; rewrite Rmult_assoc, Rinv_l in H0; lra.
Qed.

Lemma stats_t_cdf_Fin (t : R) (df : BinNums.Z) :
  (0 < df)%Z -> stats_t_cdf (Fin t) df = Fin (t_cdf t (Z.to_nat df)).
Proof.
  intros Hdf; unfold stats_t_cdf.
  destruct (df <=? 0)%Z eqn:E; [lia|easy].
Qed.

Lemma pvalue_Fin (t : R) (k : BinNums.Z) :
  (2 <= k)%Z ->
  TTest.pvalue (Fin t) k =
  Fin (t_cdf t (Z.to_nat (k - 1)) + (1 - t_cdf (- t) (Z.to_nat (k - 1)))).
Proof.
  intros Hk; unfold TTest.pvalue; simpl fopp.
  rewrite !stats_t_cdf_Fin by lia. reflexivity.
Qed.

(** ** The t distribution function *)

(** Induction in steps of two, as [cos_int] recurses. *)
Lemma nat_ind2 (P : nat -> Prop) :
  P O -> P 1%nat -> (forall n, P n -> P (S (S n))) -> forall n, P n.
Proof.
  intros H0 H1 HS n.
  assert (H : P n /\ P (S n)).
  { induction n as [|n [IH1 IH2]]; [easy|]. split; [easy|now apply HS]. }
  apply H.
Qed.

Lemma cos_int_SS (k : nat) (x : R) :
  cos_int (S (S k)) x =
  / INR (S (S k)) * (cos x ^ S k * sin x + INR (S k) * cos_int k x).
Proof. cbn [cos_int]. unfold Rdiv. ring. Qed.

Lemma sin_sqr (x : R) : sin x * sin x = 1 - cos x * cos x.
Proof. pose proof (sin2_cos2 x) as H. unfold Rsqr in H. lra. Qed.

(** [cos_int n] is the primitive of cos^n that vanishes at 0. *)
Lemma cos_int_deriv (n : nat) (x : R) :
  derivable_pt_lim (cos_int n) x (cos x ^ n).
Proof.
  revert x. induction n as [| |k IH] using nat_ind2; intros x.
  - simpl. apply (derivable_pt_lim_id x).
  - replace (cos x ^ 1) with (cos x) by ring.
    apply derivable_pt_lim_ext with (f := sin); [easy|].
    apply derivable_pt_lim_sin.
  - apply derivable_pt_lim_ext with
      (f := mult_real_fct (/ INR (S (S k)))
              ((comp (fun y => y ^ S k) cos * sin)%F +
               mult_real_fct (INR (S k)) (cos_int k))%F).
    { intros z. rewrite cos_int_SS. reflexivity. }
    replace (cos x ^ S (S k)) with
      (/ INR (S (S k)) *
       ((INR (S k) * cos x ^ pred (S k) * - sin x) * sin x +
        comp (fun y => y ^ S k) cos x * cos x +
        INR (S k) * cos x ^ k)).
    + apply derivable_pt_lim_scal, derivable_pt_lim_plus.
      * apply derivable_pt_lim_mult; [|apply derivable_pt_lim_sin].
        apply derivable_pt_lim_comp;
          [apply derivable_pt_lim_cos|apply derivable_pt_lim_pow].
      * apply derivable_pt_lim_scal, IH.
    + unfold comp. cbn [pred].
      assert (HN : INR (S (S k)) = INR (S k) + 1) by (rewrite (S_INR (S k)); ring).
      assert (HK : 0 < INR (S k)) by (apply lt_0_INR; lia).
      rewrite HN. set (K := INR (S k)) in *.
      replace (K * cos x ^ k * - sin x * sin x)
        with (- (K * cos x ^ k * (sin x * sin x))) by ring.
      rewrite sin_sqr. cbn [pow]. field. lra.
Qed.

Lemma cos_int_derivable (n : nat) : derivable (cos_int n).
Proof. intros x. exists (cos x ^ n). apply cos_int_deriv. Qed.

Lemma cos_int_increasing (n : nat) (x y : R) :
  - (PI / 2) <= x -> x < y -> y <= PI / 2 -> cos_int n x < cos_int n y.
Proof.
  intros Hx Hxy Hy.
  apply (derive_increasing_interv (- (PI / 2)) (PI / 2) (cos_int n)
           (cos_int_derivable n)); try lra.
  intros t Ht.
  rewrite (derive_pt_eq_0 _ _ _ (cos_int_derivable n t) (cos_int_deriv n t)).
  apply pow_lt, cos_gt_0; lra.
Qed.

Lemma cos_int_opp (n : nat) (x : R) : cos_int n (- x) = - cos_int n x.
Proof.
  revert x. induction n as [| |k IH] using nat_ind2; intros x.
  - reflexivity.
  - apply sin_neg.
  - rewrite !cos_int_SS, IH, cos_neg, sin_neg. ring.
Qed.

Lemma cos_int_0 (n : nat) : cos_int n 0 = 0.
Proof. pose proof (cos_int_opp n 0) as H. rewrite Ropp_0 in H. lra. Qed.

(** The normalising constant, the integral of cos^n over [0, PI/2]. *)
Lemma wallis_pos (n : nat) : 0 < cos_int n (PI / 2).
Proof.
  rewrite <- (cos_int_0 n). pose proof PI_RGT_0.
  apply cos_int_increasing; lra.
Qed.

Lemma t_cdf_opp (t : R) (nu : nat) : t_cdf (- t) nu = 1 - t_cdf t nu.
Proof.
  unfold t_cdf.
  replace (- t / sqrt (INR nu)) with (- (t / sqrt (INR nu)))
    by (unfold Rdiv; ring).
  rewrite atan_opp, cos_int_opp. unfold Rdiv. lra.
Qed.

Lemma t_cdf_increasing (nu : nat) (x y : R) :
  (1 <= nu)%nat -> x < y -> t_cdf x nu < t_cdf y nu.
Proof.
  intros Hnu Hxy. unfold t_cdf.
  assert (Hs : 0 < sqrt (INR nu)) by (apply sqrt_lt_R0, lt_0_INR; lia).
  pose proof (wallis_pos (nu - 1)) as HW.
  apply Rplus_lt_compat_l, Rmult_lt_compat_r.
  - apply Rinv_0_lt_compat; lra.
  - pose proof (atan_bound (x / sqrt (INR nu))).
    pose proof (atan_bound (y / sqrt (INR nu))).
    apply cos_int_increasing; try lra.
    apply atan_increasing, Rmult_lt_compat_r; [now apply Rinv_0_lt_compat|easy].
Qed.

Lemma t_cdf_range (nu : nat) (x : R) : 0 < t_cdf x nu < 1.
Proof.
  unfold t_cdf.
  pose proof (wallis_pos (nu - 1)) as HW.
  pose proof (atan_bound (x / sqrt (INR nu))) as [Hlo Hhi].
  set (a := atan (x / sqrt (INR nu))) in *.
  assert (H1 : cos_int (nu - 1) a < cos_int (nu - 1) (PI / 2))
    by (apply cos_int_increasing; lra).
  assert (H2 : - cos_int (nu - 1) (PI / 2) < cos_int (nu - 1) a).
  { rewrite <- cos_int_opp. apply cos_int_increasing; lra. }
  set (W := cos_int (nu - 1) (PI / 2)) in *.
  set (c := cos_int (nu - 1) a) in *.
  assert (Hq : - (1 / 2) < c / (2 * W) < 1 / 2).
  { split.
    - apply Rmult_lt_reg_r with (2 * W); [lra|].
      unfold Rdiv at 2. rewrite Rmult_assoc, Rinv_l by lra. lra.
    - apply Rmult_lt_reg_r with (2 * W); [lra|].
      unfold Rdiv at 1. rewrite Rmult_assoc, Rinv_l by lra. lra. }
  lra.
Qed.

(** sin and cos^2 of theta = atan (t / sqrt nu) *)
Lemma sin_theta (t v : R) :
  0 < v -> sin (atan (t / sqrt v)) = t / sqrt (v + t * t).
Proof.
  intros Hv. rewrite sin_atan.
  assert (Hs : 0 < sqrt v) by now apply sqrt_lt_R0.
  assert (Hvt : 0 < v + t * t) by nra.
  assert (Hst : 0 < sqrt (v + t * t)) by now apply sqrt_lt_R0.
  assert (E : sqrt (v + t * t) = sqrt v * sqrt (1 + Rsqr (t / sqrt v))).
  { rewrite <- sqrt_mult; [|lra|unfold Rsqr; nra].
    f_equal. unfold Rsqr. field_simplify; [|lra].
    replace (sqrt v ^ 2) with (sqrt v * sqrt v) by ring.
    rewrite sqrt_sqrt by lra. field. lra. }
  rewrite E. field. split; [|lra].
  assert (0 < sqrt (1 + Rsqr (t / sqrt v))); [|lra].
  apply sqrt_lt_R0. unfold Rsqr. nra.
Qed.

Lemma cos_theta_sqr (t v : R) :
  0 < v ->
  cos (atan (t / sqrt v)) * cos (atan (t / sqrt v)) = v / (v + t * t).
Proof.
  intros Hv.
  pose proof (sin_sqr (atan (t / sqrt v))) as H.
  rewrite sin_theta in H by easy.
  assert (Hvt : 0 < v + t * t) by nra.
  assert (Hst : 0 < sqrt (v + t * t)) by now apply sqrt_lt_R0.
  assert (E : t / sqrt (v + t * t) * (t / sqrt (v + t * t)) = t * t / (v + t * t)).
  { replace (t / sqrt (v + t * t) * (t / sqrt (v + t * t)))
      with (t * t / (sqrt (v + t * t) * sqrt (v + t * t))) by (field; lra).
    now rewrite sqrt_sqrt by lra. }
  rewrite E in H.
  replace (v / (v + t * t)) with (1 - t * t / (v + t * t)) by (field; lra).
  lra.
Qed.

(** Closed forms for 1, 2 and 4 degrees of freedom. *)
Lemma t_cdf_1 (t : R) : t_cdf t 1 = 1 / 2 + atan t / PI.
Proof.
  unfold t_cdf; simpl. rewrite sqrt_1.
  pose proof PI_RGT_0. replace (t / 1) with t by field. field. lra.
Qed.

Lemma t_cdf_2 (t : R) : t_cdf t 2 = 1 / 2 + t / sqrt (2 + t * t) / 2.
Proof.
  unfold t_cdf. cbn [Nat.sub cos_int]. rewrite sin_PI2.
  replace (INR 2) with 2 by (simpl; lra).
  rewrite sin_theta by lra. lra.
Qed.

Lemma t_cdf_4 (t : R) :
  t_cdf t 4 = 1 / 2 + t / sqrt (4 + t * t) * (1 + 2 / (4 + t * t)) / 2.
Proof.
  unfold t_cdf. cbn [Nat.sub]. rewrite !cos_int_SS. cbn [cos_int].
  rewrite sin_PI2, cos_PI2.
  replace (INR 4) with 4 by (simpl; lra).
  replace (INR 3) with 3 by (simpl; lra).
  replace (INR 2) with 2 by (simpl; lra).
  set (th := atan (t / sqrt 4)).
  replace (cos th ^ 2) with (cos th * cos th) by ring.
  unfold th. rewrite cos_theta_sqr, sin_theta by lra.
  assert (0 < 4 + t * t) by nra.
  assert (0 < sqrt (4 + t * t)) by now apply sqrt_lt_R0.
  field. split; lra.
Qed.

(** The tabulated 97.5% point for 4 degrees of freedom is 2.776. *)
Lemma t_cdf_4_table : 0.9749 < t_cdf 2.776 4 < 0.9751.
Proof.
  rewrite t_cdf_4.
  replace (4 + 2.776 * 2.776) with 11.706176 by lra.
  assert (Hr : 0 < sqrt 11.706176) by (apply sqrt_lt_R0; lra).
  assert (Hrr : sqrt 11.706176 * sqrt 11.706176 = 11.706176)
    by (apply sqrt_sqrt; lra).
  set (r := sqrt 11.706176) in *.
  assert (Hb : 3.4214 < r < 3.4215) by (split; nra).
  assert (Hw : 0.81134 < 2.776 / r < 0.81137).
  { split.
    - apply Rmult_lt_reg_r with r; [easy|].
      unfold Rdiv. rewrite Rmult_assoc, Rinv_l by lra. lra.
    - apply Rmult_lt_reg_r with r; [easy|].
      unfold Rdiv. rewrite Rmult_assoc, Rinv_l by lra. lra. }
  set (w := 2.776 / r) in *.
  assert (Hk : 1.17084 < 1 + 2 / 11.706176 < 1.17086) by lra.
  set (k := 1 + 2 / 11.706176) in *.
  split; nra.
Qed.

(** [t_cdf] has the density of Student's law. *)
Lemma t_cdf_deriv (nu : nat) (t : R) :
  (1 <= nu)%nat -> derivable_pt_lim (fun x => t_cdf x nu) t (t_pdf t nu).
Proof.
  intros Hnu.
  assert (Hv : 0 < INR nu) by (apply lt_0_INR; lia).
  assert (Hs : 0 < sqrt (INR nu)) by now apply sqrt_lt_R0.
  pose proof (wallis_pos (nu - 1)) as HW.
  set (W := cos_int (nu - 1) (PI / 2)) in *.
  set (x := t / sqrt (INR nu)).
  assert (Hx : x * x = t * t / INR nu).
  { unfold x.
    replace (t / sqrt (INR nu) * (t / sqrt (INR nu)))
      with (t * t / (sqrt (INR nu) * sqrt (INR nu))) by (field; lra).
    now rewrite sqrt_sqrt by lra. }
  assert (H1x : 0 < 1 + x * x) by nra.
  assert (Hr : 0 < sqrt (1 + x * x)) by now apply sqrt_lt_R0.
  apply derivable_pt_lim_ext with
    (f := (fct_cte (1 / 2) +
           mult_real_fct (/ (2 * W))
             (comp (cos_int (nu - 1))
                (comp atan (fun y => (y / sqrt (INR nu))%R))))%F).
  { intros z. unfold t_cdf, plus_fct, fct_cte, mult_real_fct, comp.
    fold W. unfold Rdiv. ring. }
  replace (t_pdf t nu) with
    (0 + / (2 * W) *
         (cos (atan x) ^ (nu - 1) * (/ (1 + x ^ 2) * (1 / sqrt (INR nu))))).
  - apply derivable_pt_lim_plus; [apply derivable_pt_lim_const|].
    apply derivable_pt_lim_scal.
    apply derivable_pt_lim_comp; [|apply cos_int_deriv].
    apply derivable_pt_lim_comp; [|apply derivable_pt_lim_atan].
    apply derivable_pt_lim_div_scal, derivable_pt_lim_id.
  - unfold t_pdf. fold W. rewrite cos_atan. unfold Rsqr.
    rewrite <- Hx.
    replace (x ^ 2) with (x * x) by ring.
    replace (/ (1 + x * x)) with (/ sqrt (1 + x * x) * / sqrt (1 + x * x)).
    2:{ rewrite <- Rinv_mult, sqrt_sqrt by lra. reflexivity. }
    replace (1 / sqrt (1 + x * x)) with (/ sqrt (1 + x * x)) by (field; lra).
    set (r := / sqrt (1 + x * x)).
    destruct nu as [|k]; [lia|].
    replace (S k - 1)%nat with k by lia.
    replace (S k + 1)%nat with (S (S k)) by lia.
    cbn [pow]. field. split; lra.
Qed.

Lemma t_cdf_0 (nu : nat) : t_cdf 0 nu = 1 / 2.
Proof.
  pose proof (t_cdf_opp 0 nu) as H.
  rewrite Ropp_0 in H. lra.
Qed.

(** For every positive number of degrees of freedom [t_cdf] is a
    symmetric distribution function in the sense of the class. *)
Lemma t_cdf_symmetric (nu : nat) :
  (1 <= nu)%nat -> SymmetricCdf (fun t => t_cdf t nu).
Proof.
  intros Hnu. split.
  - intros x. pose proof (t_cdf_range nu x). lra.
  - intros x y. now apply t_cdf_increasing.
  - intros x. apply t_cdf_opp.
Qed.

#[export] Instance t_cdf_1_symmetric : SymmetricCdf (fun t => t_cdf t 1).
Proof. apply t_cdf_symmetric. lia. Qed.

(** The cell's sum of two values of the distribution function is twice
    the value at the statistic. *)
Lemma t_two_tails (t : R) (nu : nat) :
  t_cdf t nu + (1 - t_cdf (- t) nu) = 2 * t_cdf t nu.
Proof. rewrite t_cdf_opp. lra. Qed.

Lemma t_cdf_1_at_1 : t_cdf 1 1 = 3 / 4.
Proof.
  rewrite t_cdf_1, atan_1. pose proof PI_RGT_0. field. lra.
Qed.

Lemma t_cdf_1_at_m1 : t_cdf (-1) 1 = 1 / 4.
Proof.
  replace (-1) with (Ropp 1) by lra.
  rewrite t_cdf_opp, t_cdf_1_at_1. lra.
Qed.

(** ** The Z score *)

Lemma Z_ok (x0 mu sigma : R) :
  sigma <> 0 -> ZTest.Z x0 mu sigma = Ok (Rabs (x0 - mu) / sigma).
Proof.
  intros Hs; unfold ZTest.Z, py_truediv. now rewrite Req_b_neq.
Qed.

Lemma Z_zero_divisor (x0 mu : R) : ZTest.Z x0 mu 0 = Raise ZeroDivisionError.
Proof. unfold ZTest.Z, py_truediv. now rewrite Req_b_refl. Qed.

Lemma Z_nonneg (x0 mu sigma : R) :
  0 < sigma -> 0 <= Rabs (x0 - mu) / sigma.
Proof.
  intros Hs. apply Rmult_le_pos; [apply Rabs_pos|].
  left; now apply Rinv_0_lt_compat.
Qed.

Lemma Z_nonpos (x0 mu sigma : R) :
  sigma < 0 -> Rabs (x0 - mu) / sigma <= 0.
Proof.
  intros Hs.
  assert (0 <= Rabs (x0 - mu) * / - sigma).
  { apply Rmult_le_pos; [apply Rabs_pos|].
    left; apply Rinv_0_lt_compat; lra. }
  rewrite Rinv_opp in H. unfold Rdiv. lra.
Qed.

Lemma div_eq_iff (a b s : R) : s <> 0 -> (a / s = b / s <-> a = b).
Proof.
  intros Hs; split; [|now intros ->].
  intros H. apply Rmult_eq_compat_r with (r := s) in H.
  unfold Rdiv in H. rewrite !Rmult_assoc, Rinv_l in H; lra.
Qed.

Lemma Ok_inj {A : Type} (a b : A) : Ok a = Ok b <-> a = b.
Proof. split; [now intros [=]|now intros ->]. Qed.

(** C2: for sigma > 0 the code computes Z = |x0 - mu| / sigma, a
    quantity that is never negative, whereas the signed quotient
    (x0 - mu) / sigma of the specification is negative when x0 < mu; the
    two agree exactly when mu <= x0. *)
Theorem Z_score_is_absolute_deviation (x0 mu sigma : R) :
  0 < sigma ->
  ZTest.Z x0 mu sigma = Ok (Rabs (x0 - mu) / sigma) /\
  0 <= Rabs (x0 - mu) / sigma /\
  (x0 < mu -> Z_spec x0 mu sigma < 0) /\
  (ZTest.Z x0 mu sigma = Ok (Z_spec x0 mu sigma) <-> mu <= x0).
Proof.
  intros Hs. rewrite Z_ok by lra.
  split; [reflexivity|]. split; [now apply Z_nonneg|]. split.
  - intros Hlt; unfold Z_spec.
    assert (0 < (mu - x0) * / sigma)
      by (apply Rmult_lt_0_compat; [lra|now apply Rinv_0_lt_compat]).
    unfold Rdiv; lra.
  - rewrite Ok_inj. unfold Z_spec. rewrite div_eq_iff by lra.
    split; intros H.
    + pose proof (Rabs_pos (x0 - mu)); lra.
    + apply Rabs_pos_eq; lra.
Qed.

Lemma Z_score_is_absolute_deviation_witness :
  0 < 3 /\
  ZTest.Z 1075 1060 3 = Ok (Rabs (1075 - 1060) / 3) /\
  (ZTest.Z 1075 1060 3 = Ok (Z_spec 1075 1060 3) <-> 1060 <= 1075).
Proof.
  assert (H3 : 0 < 3) by lra.
  destruct (Z_score_is_absolute_deviation 1075 1060 3 H3) as (H1 & _ & _ & H4).
  split; [exact H3|]. split; [exact H1|exact H4].
Defined.

(** The notebook's own numbers are on the side where the two differ:
    x0 = 1045, mu = 1060, sigma = 3 give Z = 5 while
    (x0 - mu) / sigma = -5. *)
Lemma example_Z_score :
  ZTest.Z Example.x0 Example.mu Example.sigma = Ok 5 /\
  Z_spec Example.x0 Example.mu Example.sigma = -5 /\
  ZTest.Z Example.x0 Example.mu Example.sigma
  <> Ok (Z_spec Example.x0 Example.mu Example.sigma).
Proof.
  unfold Example.x0, Example.mu, Example.sigma.
  assert (HZ : ZTest.Z 1045 1060 3 = Ok 5).
  { rewrite Z_ok by lra. f_equal.
    replace (1045 - 1060) with (Ropp 15) by lra.
    rewrite Rabs_Ropp, Rabs_pos_eq by lra. lra. }
  assert (HS : Z_spec 1045 1060 3 = -5) by (unfold Z_spec; lra).
  split; [exact HZ|]. split; [exact HS|].
  rewrite HZ, HS. intros [=H]. lra.
Qed.

(** ** The Z-test p-value *)

Section ZPvalue.

Context (Phi : R -> R) `{HPhi : !SymmetricCdf Phi}.

Lemma cdf_at_0 : Phi 0 = 1 / 2.
Proof.
  pose proof (cdf_symmetric (F := Phi) 0) as H.
  rewrite Ropp_0 in H. lra.
Qed.

Lemma cdf_above_half (x : R) : 0 <= x -> 1 / 2 <= Phi x.
Proof.
  intros [Hx| <-]; [|rewrite cdf_at_0; lra].
  pose proof (cdf_increasing (F := Phi) 0 x Hx). rewrite cdf_at_0 in H. lra.
Qed.

Lemma cdf_above_half_strict (x : R) : 0 < x -> 1 / 2 < Phi x.
Proof.
  intros Hx.
  pose proof (cdf_increasing (F := Phi) 0 x Hx). rewrite cdf_at_0 in H. lra.
Qed.

Lemma cdf_monotone (x y : R) : x <= y -> Phi x <= Phi y.
Proof.
  intros [H| ->]; [|lra]. left; now apply cdf_increasing.
Qed.

(** By symmetry the code's sum of two tails is twice the upper tail of
    the statistic itself (not of its absolute value). *)
Lemma pvalue_upper_tail (z : R) : ZTest.pvalue Phi z = 2 * (1 - Phi z).
Proof.
  unfold ZTest.pvalue. rewrite cdf_symmetric. lra.
Qed.

Lemma pvalue_nonneg_statistic (z : R) :
  0 <= z -> ZTest.pvalue Phi z = two_sided_spec Phi z.
Proof.
  intros Hz. rewrite pvalue_upper_tail. unfold two_sided_spec.
  now rewrite Rabs_pos_eq.
Qed.

Lemma pvalue_neg_statistic (z : R) :
  z < 0 -> ZTest.pvalue Phi z = 2 * Phi (Rabs z).
Proof.
  intros Hz. unfold ZTest.pvalue.
  rewrite Rabs_left by easy.
  rewrite (cdf_symmetric (F := Phi) z) at 1.
  pose proof (cdf_symmetric (F := Phi) z). lra.
Qed.

Lemma pvalue_range (z : R) : 0 <= z -> 0 <= ZTest.pvalue Phi z <= 1.
Proof.
  intros Hz. rewrite pvalue_upper_tail.
  pose proof (cdf_above_half z Hz). pose proof (cdf_range (F := Phi) z). lra.
Qed.

Lemma pvalue_decreasing (a b : R) :
  a <= b -> ZTest.pvalue Phi b <= ZTest.pvalue Phi a.
Proof.
  intros Hab. rewrite !pvalue_upper_tail.
  pose proof (cdf_monotone a b Hab). lra.
Qed.

End ZPvalue.

Lemma cells_two_sided (Phi : R -> R) `{!SymmetricCdf Phi} (x0 mu sigma : R) :
  0 < sigma ->
  ZTest.cells Phi x0 mu sigma =
  Ok (Rabs (x0 - mu) / sigma, two_sided_spec Phi (Rabs (x0 - mu) / sigma)).
Proof.
  intros Hs. unfold ZTest.cells. rewrite Z_ok by lra. simpl.
  rewrite (pvalue_nonneg_statistic Phi) by now apply Z_nonneg.
  reflexivity.
Qed.

(** C3, as amended: by the symmetry of Phi the code's expression
    Phi(-Z) + (1 - Phi(Z)) is 2 (1 - Phi Z) for every real Z; it is the
    two-sided p-value 2 (1 - Phi |Z|) for every Z >= 0, hence for every
    statistic the Z-score cell produces with sigma > 0; for Z < 0 it is
    2 Phi |Z| instead, which is not the two-sided p-value. *)
Theorem Z_pvalue_two_sided (Phi : R -> R) `{!SymmetricCdf Phi} (z : R) :
  ZTest.pvalue Phi z = 2 * (1 - Phi z) /\
  (0 <= z -> ZTest.pvalue Phi z = two_sided_spec Phi z) /\
  (z < 0 -> ZTest.pvalue Phi z = 2 * Phi (Rabs z) /\
            ZTest.pvalue Phi z <> two_sided_spec Phi z) /\
  (forall x0 mu sigma, 0 < sigma ->
     ZTest.cells Phi x0 mu sigma =
     Ok (Rabs (x0 - mu) / sigma, two_sided_spec Phi (Rabs (x0 - mu) / sigma))).
Proof.
  split; [apply (pvalue_upper_tail Phi)|].
  split; [apply (pvalue_nonneg_statistic Phi)|].
  split; [|intros; now apply cells_two_sided].
  intros Hz. split; [now apply (pvalue_neg_statistic Phi)|].
  rewrite (pvalue_neg_statistic Phi) by easy. unfold two_sided_spec.
  assert (Habs : 0 < Rabs z) by (rewrite Rabs_left; lra).
  pose proof (cdf_above_half_strict Phi (Rabs z) Habs). lra.
Qed.

Lemma Z_pvalue_two_sided_witness :
  ZTest.pvalue (fun t => t_cdf t 1) 1 = 2 * (1 - t_cdf 1 1) /\
  (0 <= 1 -> ZTest.pvalue (fun t => t_cdf t 1) 1 =
             two_sided_spec (fun t => t_cdf t 1) 1).
Proof.
  destruct (Z_pvalue_two_sided (fun t => t_cdf t 1) 1)
    as (H1 & H2 & _).
  split; [exact H1|exact H2].
Defined.

(** C3, the claim as stated fails for a negative statistic: with the
    symmetric distribution function of the Cauchy law, whose values at 1
    and -1 are 3/4 and 1/4, the code's expression at Z = -1 is 3/2 while
    2 (1 - Phi |Z|) is 1/2. *)
Lemma Z_pvalue_negative_statistic_counterexample :
  SymmetricCdf (fun t => t_cdf t 1) /\
  ZTest.pvalue (fun t => t_cdf t 1) (-1) = 3 / 2 /\
  two_sided_spec (fun t => t_cdf t 1) (-1) = 1 / 2.
Proof.
  split; [exact t_cdf_1_symmetric|].
  unfold ZTest.pvalue, two_sided_spec.
  replace (- -1) with 1 by lra.
  replace (Rabs (-1)) with 1
    by (replace (-1) with (Ropp 1) by lra; rewrite Rabs_Ropp, Rabs_pos_eq; lra).
  rewrite t_cdf_1_at_1, t_cdf_1_at_m1. lra.
Qed.

(** ** conditional_function *)

Lemma conditional_function_branch (x : R) :
  conditional_function x = branch_value (conditional_branch x) x.
Proof.
  unfold conditional_function, conditional_branch.
  destruct (Rltb x 0); [easy|]. destruct (Rltb x 3); [easy|].
  destruct (Req_b x 3); [easy|]. destruct (Rltb 3 x); [easy|].
  destruct (Rleb 5 x); easy.
Qed.

Lemma conditional_branch_cases (x : R) :
  In (conditional_branch x) [ret_exp; ret_square; ret_zero; ret_sqrt].
Proof.
  unfold conditional_branch.
  destruct (Rltb x 0) eqn:E0; [simpl; tauto|].
  destruct (Rltb x 3) eqn:E1; [simpl; tauto|].
  destruct (Req_b x 3) eqn:E2; [simpl; tauto|].
  destruct (Rltb 3 x) eqn:E3; [simpl; tauto|].
  Rbool. lra.
Qed.

(** C10: the return guarded by [x >= 5] is never reached: every real
    input takes one of the four returns before it, so the function never
    evaluates exp (- x) (nor falls off its end), and for x >= 5 it returns
    sqrt x. *)
Theorem conditional_function_last_branch_unreachable (x : R) :
  conditional_function x = branch_value (conditional_branch x) x /\
  In (conditional_branch x) [ret_exp; ret_square; ret_zero; ret_sqrt] /\
  conditional_branch x <> ret_exp_neg /\
  (5 <= x -> conditional_function x = Some (sqrt x)).
Proof.
  split; [apply conditional_function_branch|].
  split; [apply conditional_branch_cases|].
  split.
  - pose proof (conditional_branch_cases x) as H. simpl in H.
    intros E; rewrite E in H. intuition discriminate.
  - intros H5. unfold conditional_function.
    rewrite (Rltb_eq_false x 0), (Rltb_eq_false x 3) by lra.
    rewrite (Req_b_neq x 3), (Rltb_eq_true 3 x) by lra.
    reflexivity.
Qed.

Lemma conditional_function_last_branch_unreachable_witness :
  5 <= 6 /\ conditional_branch 6 <> ret_exp_neg /\
  conditional_function 6 = Some (sqrt 6).
Proof.
  destruct (conditional_function_last_branch_unreachable 6) as (_ & _ & H & H5).
  assert (H56 : 5 <= 6) by lra.
  split; [exact H56|]. split; [exact H|exact (H5 H56)].
Defined.

(** ** The t statistic *)

Lemma fdiv_NaN_l (y : float64) : fdiv NaN y = NaN.
Proof. reflexivity. Qed.

Lemma fdiv_NaN_r (x : float64) : fdiv x NaN = NaN.
Proof. now destruct x. Qed.

Lemma fadd_NaN_l (y : float64) : fadd NaN y = NaN.
Proof. reflexivity. Qed.

Lemma stats_t_cdf_NaN (df : BinNums.Z) : stats_t_cdf NaN df = NaN.
Proof. unfold stats_t_cdf; now destruct (df <=? 0)%Z. Qed.

Lemma pvalue_NaN (k : BinNums.Z) : TTest.pvalue NaN k = NaN.
Proof. unfold TTest.pvalue. now rewrite stats_t_cdf_NaN. Qed.

(** With fewer than two values [np.var(ddof=1)] divides 0 by 0. *)
Lemma np_var_short (l : list R) : (length l <= 1)%nat -> np_var l 1 = NaN.
Proof.
  destruct l as [|x [|y l]]; simpl; intros Hn; [| |lia].
  - unfold np_var; simpl. now rewrite !Req_b_refl.
  - unfold np_var, np_sum; simpl.
    rewrite Req_b_neq by lra. simpl.
    rewrite Req_b_refl, (proj2 (Req_b_true _ 0)); [easy|].
    field.
Qed.

Lemma T_short (l : list R) (mu : R) :
  (length l <= 1)%nat -> TTest.T l mu = NaN.
Proof.
  intros Hn; unfold TTest.T, TTest.sigma.
  rewrite np_var_short by easy. simpl fsqrt.
  now rewrite fdiv_NaN_l, fdiv_NaN_r.
Qed.

Lemma cells_short (l : list R) (mu : R) :
  (length l <= 1)%nat -> TTest.cells l mu = (NaN, NaN).
Proof.
  intros Hn; unfold TTest.cells.
  now rewrite T_short, pvalue_NaN.
Qed.

Lemma cells_finite (l : list R) (mu : R) :
  (2 <= length l)%nat -> std_spec l <> 0 ->
  TTest.cells l mu =
  (Fin (T_spec l mu),
   Fin (t_cdf (T_spec l mu) (length l - 1) +
        (1 - t_cdf (- T_spec l mu) (length l - 1)))).
Proof.
  intros Hn Hs; unfold TTest.cells.
  rewrite T_finite by easy.
  unfold TTest.n. rewrite pvalue_Fin by lia.
  replace (Z.to_nat (Z.of_nat (length l) - 1)) with (length l - 1)%nat by lia.
  reflexivity.
Qed.

(** A sample whose values are all equal has s = 0: the statistic is then
    a quotient by zero. *)
Lemma T_zero_deviation (l : list R) (mu : R) :
  (2 <= length l)%nat -> std_spec l = 0 ->
  TTest.T l mu =
  if Req_b (mean_spec l - mu) 0 then NaN
  else if Rltb 0 (mean_spec l - mu) then PInf else NInf.
Proof.
  intros Hn Hs. rewrite T_eq by easy. rewrite Hs.
  unfold Rdiv at 1. rewrite Rmult_0_l. simpl. now rewrite Req_b_refl.
Qed.

(** Samples of two values. *)
Lemma mean_spec_pair (a b : R) : mean_spec [a; b] = (a + b) / 2.
Proof. unfold mean_spec; simpl. lra. Qed.

Lemma std_spec_pair (a b : R) :
  std_spec [a; b] = sqrt ((a - b) ^ 2 / 2).
Proof.
  unfold std_spec. rewrite mean_spec_pair. simpl. f_equal. field.
Qed.

Lemma sqrt2_pos : 0 < sqrt 2.
Proof. apply sqrt_lt_R0; lra. Qed.

Lemma std_spec_step2 (a : R) : std_spec [a; a + 2] = sqrt 2.
Proof. rewrite std_spec_pair. f_equal. field. Qed.

Lemma T_spec_step2 (a mu : R) : T_spec [a; a + 2] mu = a + 1 - mu.
Proof.
  unfold T_spec. rewrite mean_spec_pair, std_spec_step2.
  replace (INR (length [a; a + 2])) with 2 by (simpl; lra).
  pose proof sqrt2_pos. field. lra.
Qed.

Lemma cells_step2 (a mu : R) :
  TTest.cells [a; a + 2] mu =
  (Fin (a + 1 - mu),
   Fin (t_cdf (a + 1 - mu) 1 + (1 - t_cdf (- (a + 1 - mu)) 1))).
Proof.
  rewrite cells_finite.
  - now rewrite T_spec_step2.
  - simpl; lia.
  - rewrite std_spec_step2. pose proof sqrt2_pos; lra.
Qed.

(** The sample 1060, 1062 against mu = 1060: the mean is above mu. *)
Lemma cells_mean_above :
  TTest.cells [1060; 1062] 1060 = (Fin 1, Fin (3 / 2)).
Proof.
  replace 1062 with (1060 + 2) by lra. rewrite cells_step2.
  replace (1060 + 1 - 1060) with 1 by lra.
  rewrite t_cdf_opp, t_cdf_1_at_1. do 2 f_equal. lra.
Qed.

(** The sample 1058, 1060 against mu = 1060: the mean is below mu. *)
Lemma cells_mean_below :
  TTest.cells [1058; 1060] 1060 = (Fin (-1), Fin (1 / 2)).
Proof.
  replace 1060 with (1058 + 2) at 1 by lra. rewrite cells_step2.
  replace (1058 + 1 - 1060) with (Ropp 1) by lra.
  rewrite Ropp_involutive, t_cdf_opp, t_cdf_1_at_1.
  f_equal; f_equal; lra.
Qed.

(** C4: on a sample of at least two values the t-statistic cell computes
    the sample mean, the standard deviation with denominator n - 1, the
    statistic (x-bar - mu) / (s / sqrt n) (the IEEE quotient, which is that
    real number whenever s is not 0), and the p-value cell reads the t
    distribution with n - 1 degrees of freedom. *)
Theorem t_statistic_formulas (samples : list R) (mu : R) :
  (2 <= length samples)%nat ->
  TTest.sample_mean samples = Fin (mean_spec samples) /\
  TTest.sigma samples = Fin (std_spec samples) /\
  TTest.T samples mu =
    fdiv (Fin (mean_spec samples - mu))
         (Fin (std_spec samples / sqrt (INR (length samples)))) /\
  (std_spec samples <> 0 -> TTest.T samples mu = Fin (T_spec samples mu)) /\
  snd (TTest.cells samples mu) =
    fadd (stats_t_cdf (TTest.T samples mu) (Z.of_nat (length samples - 1)))
         (fsub (Fin 1)
            (stats_t_cdf (fopp (TTest.T samples mu))
               (Z.of_nat (length samples - 1)))) /\
  (std_spec samples <> 0 ->
   snd (TTest.cells samples mu) =
     Fin (t_cdf (T_spec samples mu) (length samples - 1) +
          (1 - t_cdf (- T_spec samples mu) (length samples - 1)))).
Proof.
  intros Hn.
  assert (Hl : samples <> []) by (destruct samples; simpl in *; [lia|easy]).
  split; [now apply np_mean_nonempty|].
  split; [now apply sigma_eq|].
  split; [now apply T_eq|].
  split; [now apply T_finite|].
  split.
  - unfold TTest.cells, TTest.pvalue, TTest.n; simpl snd.
    replace (Z.of_nat (length samples) - 1)%Z
      with (Z.of_nat (length samples - 1)) by lia.
    reflexivity.
  - intros Hs. now rewrite cells_finite.
Qed.

Lemma t_statistic_formulas_witness :
  (2 <= length [1060; 1062])%nat /\
  TTest.sample_mean [1060; 1062] = Fin (mean_spec [1060; 1062]) /\
  TTest.sigma [1060; 1062] = Fin (std_spec [1060; 1062]) /\
  TTest.T [1060; 1062] 1060 =
    fdiv (Fin (mean_spec [1060; 1062] - 1060))
         (Fin (std_spec [1060; 1062] / sqrt (INR (length [1060; 1062])))).
Proof.
  assert (Hn : (2 <= length [1060; 1062])%nat) by (simpl; lia).
  destruct (t_statistic_formulas [1060; 1062] 1060 Hn) as (H1 & H2 & H3 & _).
  split; [exact Hn|]. split; [exact H1|]. split; [exact H2|exact H3].
Defined.

(** C1, the t-test cell at a sample whose mean is above mu: the sample
    1060, 1062 with mu = 1060 has T = 1 and the cell's p-value
    F(T) + (1 - F(-T)) is 3/2, outside [0, 1]. *)
Theorem t_pvalue_exceeds_one :
  TTest.cells [1060; 1062] 1060 = (Fin 1, Fin (3 / 2)) /\ 1 < 3 / 2.
Proof. split; [apply cells_mean_above|lra]. Qed.

(** C8, the t-test cell at two samples of the same size whose statistics
    are -1 and 1: equal in absolute value, yet the p-values are 1/2 and
    3/2; the cell's p-value grows with the statistic. *)
Theorem t_pvalue_not_monotone_in_abs :
  TTest.cells [1058; 1060] 1060 = (Fin (-1), Fin (1 / 2)) /\
  TTest.cells [1060; 1062] 1060 = (Fin 1, Fin (3 / 2)) /\
  Rabs (-1) <= Rabs 1 /\ 1 / 2 < 3 / 2.
Proof.
  split; [apply cells_mean_below|]. split; [apply cells_mean_above|].
  split; [|lra].
  replace (-1) with (Ropp 1) by lra. rewrite Rabs_Ropp. lra.
Qed.

(** ** Inputs outside the domain of the tests *)

Lemma cells_zero_sigma (Phi : R -> R) (x0 mu : R) :
  ZTest.cells Phi x0 mu 0 = Raise ZeroDivisionError.
Proof. unfold ZTest.cells. now rewrite Z_zero_divisor. Qed.

Lemma cells_nonzero_sigma (Phi : R -> R) (x0 mu sigma : R) :
  sigma <> 0 ->
  ZTest.cells Phi x0 mu sigma =
  Ok (Rabs (x0 - mu) / sigma, ZTest.pvalue Phi (Rabs (x0 - mu) / sigma)).
Proof. intros Hs. unfold ZTest.cells. now rewrite Z_ok. Qed.

(** C6, as amended: the cells validate nothing.  A sample of size 0 or 1
    makes the t-test cells print NaN for the statistic and for the
    p-value, without any failure; sigma = 0 makes the Z-score cell fail
    with Python's ZeroDivisionError, and nothing is printed; a negative
    sigma is accepted and gives the statistic |x0 - mu| / sigma <= 0 with
    its p-value. *)
Theorem degenerate_inputs_not_rejected
  (Phi : R -> R) (samples : list R) (x0 mu sigma : R) :
  ((length samples <= 1)%nat -> TTest.cells samples mu = (NaN, NaN)) /\
  ZTest.cells Phi x0 mu 0 = Raise ZeroDivisionError /\
  (sigma < 0 ->
   ZTest.cells Phi x0 mu sigma =
   Ok (Rabs (x0 - mu) / sigma, ZTest.pvalue Phi (Rabs (x0 - mu) / sigma)) /\
   Rabs (x0 - mu) / sigma <= 0).
Proof.
  split; [apply cells_short|]. split; [apply cells_zero_sigma|].
  intros Hs. split; [apply cells_nonzero_sigma; lra|now apply Z_nonpos].
Qed.

Lemma degenerate_inputs_not_rejected_witness :
  TTest.cells [1060] 1060 = (NaN, NaN) /\
  ZTest.cells (fun t => t_cdf t 1) 1045 1060 0 = Raise ZeroDivisionError /\
  ZTest.cells (fun t => t_cdf t 1) 1045 1060 (-3) =
  Ok (Rabs (1045 - 1060) / -3,
      ZTest.pvalue (fun t => t_cdf t 1) (Rabs (1045 - 1060) / -3)).
Proof.
  destruct (degenerate_inputs_not_rejected
              (fun t => t_cdf t 1) [1060] 1045 1060 (-3)) as (H1 & H2 & H3).
  split; [apply H1; simpl; lia|]. split; [exact H2|].
  apply H3. lra.
Defined.

(** C6, the claim as stated fails: a one-value sample produces the
    printed pair (NaN, NaN) instead of an error, and sigma = -3 produces
    the statistic -5 instead of an error. *)
Lemma degenerate_inputs_counterexample :
  TTest.cells [1060] 1060 = (NaN, NaN) /\
  TTest.cells [] 1060 = (NaN, NaN) /\
  ZTest.Z 1045 1060 (-3) = Ok (-5).
Proof.
  split; [apply cells_short; simpl; lia|].
  split; [apply cells_short; simpl; lia|].
  rewrite Z_ok by lra. f_equal.
  replace (1045 - 1060) with (Ropp 15) by lra.
  rewrite Rabs_Ropp, Rabs_pos_eq by lra. lra.
Qed.

(** ** A sample mean equal to mu *)

Lemma Z_cells_at_mu (Phi : R -> R) (mu sigma : R) :
  sigma <> 0 -> ZTest.cells Phi mu mu sigma = Ok (0, 1).
Proof.
  intros Hs. rewrite cells_nonzero_sigma by easy.
  replace (Rabs (mu - mu) / sigma) with 0.
  - unfold ZTest.pvalue. rewrite Ropp_0. do 2 f_equal. lra.
  - unfold Rminus. rewrite Rplus_opp_r, Rabs_R0. unfold Rdiv. ring.
Qed.

Lemma T_cells_at_mean (samples : list R) :
  (2 <= length samples)%nat -> std_spec samples <> 0 ->
  TTest.cells samples (mean_spec samples) = (Fin 0, Fin 1).
Proof.
  intros Hn Hs. rewrite cells_finite by easy.
  replace (T_spec samples (mean_spec samples)) with 0
    by (unfold T_spec, Rdiv; ring).
  rewrite Ropp_0. do 2 f_equal. lra.
Qed.

(** C7, as amended: when the sample mean equals mu, with sigma > 0 for
    the Z test, and with n >= 2 and a sample standard deviation s > 0 for
    the t test, the statistic is exactly 0 and the two-sided p-value
    exactly 1. *)
Theorem statistic_zero_when_mean_is_mu
  (Phi : R -> R) (x0 mu sigma : R) (samples : list R) :
  0 < sigma -> x0 = mu ->
  (2 <= length samples)%nat -> mean_spec samples = mu ->
  std_spec samples <> 0 ->
  ZTest.cells Phi x0 mu sigma = Ok (0, 1) /\
  TTest.cells samples mu = (Fin 0, Fin 1).
Proof.
  intros Hs -> Hn <- Hstd. split.
  - apply Z_cells_at_mu; lra.
  - now apply T_cells_at_mean.
Qed.

Lemma statistic_zero_when_mean_is_mu_witness :
  ZTest.cells (fun t => t_cdf t 1) 1060 1060 3 = Ok (0, 1) /\
  TTest.cells [1059; 1059 + 2] 1060 = (Fin 0, Fin 1).
Proof.
  apply (statistic_zero_when_mean_is_mu
           (fun t => t_cdf t 1) 1060 1060 3 [1059; 1059 + 2]).
  - lra.
  - reflexivity.
  - simpl; lia.
  - rewrite mean_spec_pair; lra.
  - rewrite std_spec_step2. pose proof sqrt2_pos; lra.
Defined.

(** C7, the claim as stated fails on the sample 1060, 1060: it has
    n = 2 and mean 1060 = mu, but s = 0 and the statistic is 0/0: the
    cells print NaN for the statistic and for the p-value. *)
Lemma constant_sample_counterexample :
  (2 <= length [1060; 1060])%nat /\
  mean_spec [1060; 1060] = 1060 /\
  TTest.cells [1060; 1060] 1060 = (NaN, NaN).
Proof.
  assert (Hm : mean_spec [1060; 1060] = 1060) by (rewrite mean_spec_pair; lra).
  assert (Hs : std_spec [1060; 1060] = 0).
  { rewrite std_spec_pair.
    replace ((1060 - 1060) ^ 2 / 2) with 0 by lra. apply sqrt_0. }
  split; [simpl; lia|]. split; [exact Hm|].
  unfold TTest.cells.
  rewrite T_zero_deviation by (simpl; lia || exact Hs).
  rewrite Hm, (proj2 (Req_b_true _ 0)) by lra.
  now rewrite pvalue_NaN.
Qed.

(** ** The notebook's t-test example *)

Lemma example_length : length Example.samples = 5%nat.
Proof. reflexivity. Qed.

Lemma example_mean : mean_spec Example.samples = 5206 / 5.
Proof. unfold mean_spec, Example.samples; simpl. lra. Qed.

Lemma example_std : std_spec Example.samples = sqrt (1947 / 10).
Proof.
  unfold std_spec. rewrite example_mean.
  unfold Example.samples; simpl. f_equal. lra.
Qed.

Lemma example_std_pos : 0 < sqrt (1947 / 10).
Proof. apply sqrt_lt_R0; lra. Qed.

Lemma sqrt5_pos : 0 < sqrt 5.
Proof. apply sqrt_lt_R0; lra. Qed.

Lemma example_T : T_spec Example.samples Example.mu = - Example.q.
Proof.
  unfold T_spec, Example.q, Example.mu.
  rewrite example_mean, example_std, example_length.
  replace (INR 5) with 5 by (simpl; lra).
  pose proof example_std_pos. pose proof sqrt5_pos.
  field. lra.
Qed.

Lemma example_q_pos : 0 < Example.q.
Proof.
  unfold Example.q.
  pose proof example_std_pos. pose proof sqrt5_pos.
  apply Rdiv_lt_0_compat; [lra|]. now apply Rdiv_lt_0_compat.
Qed.

Lemma example_q_sqr : Example.q * Example.q = 17672 / 1947.
Proof.
  unfold Example.q.
  pose proof example_std_pos. pose proof sqrt5_pos.
  replace (94 / 5 / (sqrt (1947 / 10) / sqrt 5) *
           (94 / 5 / (sqrt (1947 / 10) / sqrt 5)))
    with ((94 / 5) * (94 / 5) * (sqrt 5 * sqrt 5) /
          (sqrt (1947 / 10) * sqrt (1947 / 10))) by (field; lra).
  rewrite !sqrt_sqrt by lra. lra.
Qed.

Lemma example_q_bounds : 3012 / 1000 < Example.q < 3013 / 1000.
Proof.
  pose proof example_q_pos. pose proof example_q_sqr. split; nra.
Qed.

Lemma example_u_pos : 0 < Example.u.
Proof.
  unfold Example.u. pose proof example_q_pos.
  apply Rdiv_lt_0_compat; [easy|]. apply sqrt_lt_R0. nra.
Qed.

Lemma example_u_sqr : Example.u * Example.u = 17672 / 25460.
Proof.
  unfold Example.u. pose proof example_q_sqr as Hq.
  assert (Hpos : 0 < 4 + Example.q * Example.q) by (rewrite Hq; lra).
  pose proof (sqrt_lt_R0 _ Hpos).
  replace (Example.q / sqrt (4 + Example.q * Example.q) *
           (Example.q / sqrt (4 + Example.q * Example.q)))
    with (Example.q * Example.q /
          (sqrt (4 + Example.q * Example.q) * sqrt (4 + Example.q * Example.q)))
    by (field; lra).
  rewrite sqrt_sqrt by lra. rewrite Hq. lra.
Qed.

Lemma example_u_bounds : 8331 / 10000 < Example.u < 8332 / 10000.
Proof.
  pose proof example_u_pos. pose proof example_u_sqr. split; nra.
Qed.

Lemma example_pvalue :
  t_cdf (- Example.q) 4 + (1 - t_cdf (- - Example.q) 4) = Example.p.
Proof.
  rewrite (t_cdf_opp (- Example.q)), t_cdf_4.
  replace (- Example.q * - Example.q) with (Example.q * Example.q) by ring.
  replace (- Example.q / sqrt (4 + Example.q * Example.q)) with (- Example.u)
    by (unfold Example.u, Rdiv; ring).
  rewrite example_q_sqr. unfold Example.p. lra.
Qed.

Lemma example_p_bounds : 39 / 1000 < Example.p < 40 / 1000.
Proof. unfold Example.p. pose proof example_u_bounds. lra. Qed.

Lemma example_cells :
  TTest.cells Example.samples Example.mu = (Fin (- Example.q), Fin Example.p).
Proof.
  rewrite cells_finite.
  - rewrite example_T, example_length. simpl Nat.sub.
    now rewrite example_pvalue.
  - rewrite example_length; lia.
  - rewrite example_std. pose proof example_std_pos; lra.
Qed.

Lemma decide_Fin (p alpha : R) : decide (Fin p) alpha = true <-> p < alpha.
Proof. unfold decide; simpl. apply Rltb_true. Qed.

(** C9, as amended: on the sample 1035, 1050, 1020, 1055, 1046 with
    mu = 1060 the cells compute the mean 1041.2 with n = 5, the standard
    deviation sqrt 194.7 (denominator n - 1), the statistic T between
    -3.013 and -3.012, and a two-sided p-value between 0.039 and 0.040,
    which is below 0.05: the rule "reject iff p_value < alpha" rejects the
    null hypothesis at alpha = 0.05. *)
Theorem example_t_test :
  TTest.sample_mean Example.samples = Fin 1041.2 /\
  TTest.n Example.samples = 5%Z /\
  TTest.sigma Example.samples = Fin (std_spec Example.samples) /\
  std_spec Example.samples = sqrt (1947 / 10) /\
  exists t p : R,
    TTest.cells Example.samples Example.mu = (Fin t, Fin p) /\
    -3.013 < t < -3.012 /\
    0.039 < p < 0.040 /\
    decide (Fin p) 0.05 = true.
Proof.
  assert (Hn : (2 <= length Example.samples)%nat)
    by (rewrite example_length; lia).
  split.
  { unfold TTest.sample_mean. rewrite np_mean_nonempty by easy.
    rewrite example_mean. f_equal. lra. }
  split; [reflexivity|].
  split; [now apply sigma_eq|].
  split; [apply example_std|].
  exists (- Example.q), Example.p.
  split; [apply example_cells|].
  pose proof example_q_bounds. pose proof example_p_bounds.
  split; [lra|]. split; [lra|].
  apply decide_Fin. lra.
Qed.

(** C9, the claim as stated fails: the statistic of the example is below
    -3 (so it is not -2.33 to two decimals), the p-value is below 0.05 (not
    above), and the rule "reject iff p_value < alpha" returns true at
    alpha = 0.05 (it does not retain the null hypothesis). *)
Lemma example_t_test_counterexample :
  exists t p : R,
    TTest.cells Example.samples Example.mu = (Fin t, Fin p) /\
    t < -3 /\ p < 0.05 /\ decide (Fin p) 0.05 = true.
Proof.
  exists (- Example.q), Example.p.
  split; [apply example_cells|].
  pose proof example_q_bounds. pose proof example_p_bounds.
  split; [lra|]. split; [lra|].
  apply decide_Fin. lra.
Qed.

(** ** What the two p-value cells do in general *)

(** X1: for sigma > 0 the Z-test cells print a statistic that is not
    negative and a p-value in [0, 1]. *)
Theorem Z_cells_pvalue_in_unit_interval
  (Phi : R -> R) `{!SymmetricCdf Phi} (x0 mu sigma : R) :
  0 < sigma ->
  exists z p : R,
    ZTest.cells Phi x0 mu sigma = Ok (z, p) /\ 0 <= z /\ 0 <= p <= 1.
Proof.
  intros Hs.
  exists (Rabs (x0 - mu) / sigma), (ZTest.pvalue Phi (Rabs (x0 - mu) / sigma)).
  split; [apply cells_nonzero_sigma; lra|].
  split; [now apply Z_nonneg|].
  apply (pvalue_range Phi). now apply Z_nonneg.
Qed.

Lemma Z_cells_pvalue_in_unit_interval_witness :
  exists z p : R,
    ZTest.cells (fun t => t_cdf t 1) Example.x0 Example.mu Example.sigma
    = Ok (z, p) /\ 0 <= z /\ 0 <= p <= 1.
Proof.
  apply (Z_cells_pvalue_in_unit_interval (fun t => t_cdf t 1)).
  unfold Example.sigma. lra.
Defined.

(** X2: the Z-test p-value does not increase with the statistic: among the
    statistics the Z-score cell produces (none is negative) a larger
    absolute value gives a p-value that is not larger. *)
Theorem Z_pvalue_monotone (Phi : R -> R) `{!SymmetricCdf Phi} (a b : R) :
  0 <= a -> 0 <= b -> Rabs a <= Rabs b ->
  ZTest.pvalue Phi b <= ZTest.pvalue Phi a.
Proof.
  intros Ha Hb Hab. rewrite !Rabs_pos_eq in Hab by easy.
  now apply (pvalue_decreasing Phi).
Qed.

Lemma Z_pvalue_monotone_witness :
  ZTest.pvalue (fun t => t_cdf t 1) 5 <= ZTest.pvalue (fun t => t_cdf t 1) 1.
Proof.
  apply (Z_pvalue_monotone (fun t => t_cdf t 1) 1 5); try lra.
  rewrite !Rabs_pos_eq; lra.
Defined.

Lemma std_spec_nonneg (l : list R) : 0 <= std_spec l.
Proof. apply sqrt_pos. Qed.

Lemma T_spec_sign (l : list R) (mu : R) :
  (2 <= length l)%nat -> std_spec l <> 0 ->
  (T_spec l mu <= 0 <-> mean_spec l <= mu).
Proof.
  intros Hn Hs.
  pose proof (std_spec_nonneg l). pose proof (sqrt_n_pos l Hn) as Hq.
  assert (Hd : 0 < std_spec l / sqrt (INR (length l)))
    by (apply Rdiv_lt_0_compat; lra).
  unfold T_spec.
  set (d := std_spec l / sqrt (INR (length l))) in *.
  assert (Hi : 0 < / d) by now apply Rinv_0_lt_compat.
  unfold Rdiv. split; intros H1; nra.
Qed.

(** X3: on a sample of at least two values that are not all equal the
    t-test p-value cell prints twice the distribution function at T; that
    number is positive, and it is at most 1 exactly when the sample mean
    is at most mu. *)
Theorem t_pvalue_in_unit_interval_iff (samples : list R) (mu : R) :
  (2 <= length samples)%nat -> std_spec samples <> 0 ->
  exists p : R,
    snd (TTest.cells samples mu) = Fin p /\
    p = 2 * t_cdf (T_spec samples mu) (length samples - 1) /\
    0 < p /\ (p <= 1 <-> mean_spec samples <= mu).
Proof.
  intros Hn Hs.
  exists (2 * t_cdf (T_spec samples mu) (length samples - 1)).
  rewrite cells_finite, t_two_tails by easy.
  split; [reflexivity|]. split; [reflexivity|].
  pose proof (t_cdf_range (length samples - 1) (T_spec samples mu)) as Hr.
  split; [lra|].
  rewrite <- (T_spec_sign samples mu Hn Hs).
  pose proof (t_cdf_0 (length samples - 1)) as H0.
  split; intros H.
  - destruct (Rle_or_lt (T_spec samples mu) 0) as [Hle|Hlt]; [easy|].
    pose proof (t_cdf_increasing (length samples - 1) 0 (T_spec samples mu)
                  ltac:(lia) Hlt). lra.
  - destruct H as [Hlt|Heq].
    + pose proof (t_cdf_increasing (length samples - 1) (T_spec samples mu) 0
                    ltac:(lia) Hlt). lra.
    + rewrite Heq. lra.
Qed.

Lemma t_pvalue_in_unit_interval_iff_witness :
  exists p : R,
    snd (TTest.cells [1060; 1060 + 2] 1060) = Fin p /\
    p = 2 * t_cdf (T_spec [1060; 1060 + 2] 1060) (length [1060; 1060 + 2] - 1) /\
    0 < p /\ (p <= 1 <-> mean_spec [1060; 1060 + 2] <= 1060).
Proof.
  apply (t_pvalue_in_unit_interval_iff [1060; 1060 + 2] 1060).
  - simpl; lia.
  - rewrite std_spec_step2. pose proof sqrt2_pos; lra.
Defined.

(** X4: with n - 1 >= 1 degrees of freedom the t-test p-value cell is
    strictly increasing in the signed statistic. *)
Theorem t_pvalue_increasing (k : BinNums.Z) (a b : R) :
  (2 <= k)%Z -> a < b ->
  exists pa pb : R,
    TTest.pvalue (Fin a) k = Fin pa /\ TTest.pvalue (Fin b) k = Fin pb /\
    pa < pb.
Proof.
  intros Hk Hab. rewrite !pvalue_Fin, !t_two_tails by easy.
  eexists _, _. split; [reflexivity|]. split; [reflexivity|].
  pose proof (t_cdf_increasing (Z.to_nat (k - 1)) a b ltac:(lia) Hab). lra.
Qed.

Lemma t_pvalue_increasing_witness :
  exists pa pb : R,
    TTest.pvalue (Fin (-1)) 2 = Fin pa /\ TTest.pvalue (Fin 1) 2 = Fin pb /\
    pa < pb.
Proof.
  apply (t_pvalue_increasing 2 (-1) 1); [lia|lra].
Defined.

(** ** The shading of the Z-test plots *)

Lemma Rltb_eq_iff (a b c d : R) : (a < b <-> c < d) -> Rltb a b = Rltb c d.
Proof.
  intros H. destruct (Rltb a b) eqn:E1, (Rltb c d) eqn:E2; try easy; Rbool.
  - apply H in E1. lra.
  - apply H in E2. lra.
Qed.

Lemma Rabs_div_pos (a s : R) : 0 < s -> Rabs (a / s) = Rabs a / s.
Proof.
  intros Hs. unfold Rdiv. rewrite Rabs_mult, (Rabs_pos_eq (/ s)); [easy|].
  left; now apply Rinv_0_lt_compat.
Qed.

Lemma div_lt_iff (a b s : R) : 0 < s -> (a / s < b / s <-> a < b).
Proof.
  intros Hs. assert (Hi : 0 < / s) by now apply Rinv_0_lt_compat.
  unfold Rdiv. split; intros H; nra.
Qed.

(** X5: for sigma > 0, when the measurement is not above mu the part of
    the measurement plot that the Z-test cell shades is exactly the set
    of values whose Z score exceeds the observed one, and it corresponds,
    under x -> (x - mu) / sigma, to the part shaded in the plot of the
    statistic; when the measurement is above mu, [w] is negative and the
    cell shades every value. *)
Theorem shaded_region_is_more_extreme (x0 mu sigma x : R) :
  0 < sigma ->
  exists z zx : R,
    ZTest.Z x0 mu sigma = Ok z /\ ZTest.Z x mu sigma = Ok zx /\
    (x0 <= mu ->
     (ZPlot.shaded x0 mu x = true <-> z < zx) /\
     ZPlot.shaded x0 mu x = ZPlot.shaded_statistic z ((x - mu) / sigma)) /\
    (mu < x0 -> ZPlot.shaded x0 mu x = true).
Proof.
  intros Hs.
  exists (Rabs (x0 - mu) / sigma), (Rabs (x - mu) / sigma).
  rewrite !Z_ok by lra.
  split; [reflexivity|]. split; [reflexivity|]. split.
  - intros Hx.
    assert (Hw : Rabs (x0 - mu) = ZPlot.w x0 mu).
    { unfold ZPlot.w. rewrite Rabs_left1 by lra. lra. }
    split.
    + unfold ZPlot.shaded. rewrite Rltb_true, div_lt_iff, Hw by easy. tauto.
    + unfold ZPlot.shaded, ZPlot.shaded_statistic.
      apply Rltb_eq_iff.
      rewrite (Rabs_pos_eq (Rabs (x0 - mu) / sigma)) by now apply Z_nonneg.
      rewrite (Rabs_div_pos (x - mu)) by easy.
      rewrite div_lt_iff, Hw by easy. tauto.
  - intros H. unfold ZPlot.shaded, ZPlot.w. apply Rltb_true.
    pose proof (Rabs_pos (x - mu)). lra.
Qed.

Lemma shaded_region_is_more_extreme_witness :
  exists z zx : R,
    ZTest.Z 1045 1060 3 = Ok z /\ ZTest.Z 1080 1060 3 = Ok zx /\
    (1045 <= 1060 ->
     (ZPlot.shaded 1045 1060 1080 = true <-> z < zx) /\
     ZPlot.shaded 1045 1060 1080 =
     ZPlot.shaded_statistic z ((1080 - 1060) / 3)) /\
    (1060 < 1045 -> ZPlot.shaded 1045 1060 1080 = true).
Proof.
  apply (shaded_region_is_more_extreme 1045 1060 3 1080); lra.
Defined.

(** ** conditional_function as an integrand *)

Lemma conditional_function_cases (x : R) :
  (x < 0 /\ conditional_function x = Some (exp x)) \/
  (0 <= x < 3 /\ conditional_function x = Some (x ^ 2)) \/
  (x = 3 /\ conditional_function x = Some 0) \/
  (3 < x /\ conditional_function x = Some (sqrt x)).
Proof.
  unfold conditional_function.
  destruct (Rltb x 0) eqn:E0; Rbool; [now left|].
  destruct (Rltb x 3) eqn:E1; Rbool; [right; left; split; [lra|easy]|].
  destruct (Req_b x 3) eqn:E2; Rbool; [right; right; left; easy|].
  assert (H3 : 3 < x) by lra.
  rewrite (Rltb_eq_true 3 x H3). right; right; right; easy.
Qed.

Lemma conditional_value_neg (x : R) : x < 0 -> conditional_value x = exp x.
Proof.
  intros H. unfold conditional_value.
  destruct (conditional_function_cases x) as [[_ ->]|[[? _]|[[? _]|[? _]]]];
    [easy|lra..].
Qed.

Lemma conditional_value_square (x : R) :
  0 <= x < 3 -> conditional_value x = x ^ 2.
Proof.
  intros H. unfold conditional_value.
  destruct (conditional_function_cases x) as [[? _]|[[_ ->]|[[? _]|[? _]]]];
    [lra|easy|lra..].
Qed.

Lemma conditional_value_3 : conditional_value 3 = 0.
Proof.
  unfold conditional_value.
  destruct (conditional_function_cases 3) as [[? _]|[[? _]|[[_ ->]|[? _]]]];
    [lra|lra|easy|lra].
Qed.

(** X6: on every real input the function returns a number (it never
    falls off its last [if] and returns [None]) that is not negative; up
    to the end of the integration interval, x <= 6, it stays below 9. *)
Theorem conditional_function_total_and_bounded (x : R) :
  exists y : R,
    conditional_function x = Some y /\ 0 <= y /\ (x <= 6 -> y < 9).
Proof.
  destruct (conditional_function_cases x)
    as [[Hx ->]|[[Hx ->]|[[Hx ->]|[Hx ->]]]]; eexists; (split; [reflexivity|]).
  - pose proof (exp_pos x). split; [lra|]. intros _.
    pose proof (exp_increasing x 0 Hx) as Hi. rewrite exp_0 in Hi. lra.
  - split; [apply pow2_ge_0|]. intros _. nra.
  - lra.
  - split; [apply sqrt_pos|]. intros H6.
    assert (Hs : sqrt x <= sqrt 9) by (apply sqrt_le_1_alt; lra).
    replace 9 with (3 * 3) in Hs by lra.
    rewrite sqrt_square in Hs by lra. lra.
Qed.

Lemma not_continuous_by_gap (f : R -> R) (a g : R) :
  0 < g ->
  (forall d : R, 0 < d -> exists x : R,
      x <> a /\ Rabs (x - a) < d /\ g <= Rabs (f x - f a)) ->
  ~ continuity_pt f a.
Proof.
  intros Hg Hgap Hc.
  destruct (Hc g Hg) as (d & Hd & Hlim).
  destruct (Hgap d Hd) as (x & Hne & Hclose & Hfar).
  specialize (Hlim x).
  simpl in Hlim. unfold R_dist, D_x, no_cond in Hlim.
  assert (Rabs (f x - f a) < g) by (apply Hlim; repeat split; auto).
  lra.
Qed.

(** X7: the integrand has a jump at 0 (values near 1 on the left, 0 at 0)
    and at 3 (values above 4 just on the left, 0 at 3): it is continuous
    at neither point, and both lie inside the integration interval
    [-4, 6] of the call of [quad], which is given no break points. *)
Theorem conditional_function_discontinuous :
  ~ continuity_pt conditional_value 0 /\
  ~ continuity_pt conditional_value 3 /\
  -4 < 0 < 6 /\ -4 < 3 < 6.
Proof.
  split; [|split; [|lra]].
  - apply not_continuous_by_gap with (g := 1 / 2); [lra|].
    intros d Hd.
    set (h := Rmin d 1 / 2).
    assert (Hh : 0 < h <= 1 / 2 /\ h < d).
    { unfold h. pose proof (Rmin_l d 1). pose proof (Rmin_r d 1).
      assert (0 < Rmin d 1) by (apply Rmin_glb_lt; lra). lra. }
    exists (- h). split; [lra|]. split.
    + replace (- h - 0) with (- h) by lra. rewrite Rabs_Ropp, Rabs_pos_eq; lra.
    + rewrite conditional_value_neg by lra.
      rewrite (conditional_value_square 0) by lra.
      replace (0 ^ 2) with 0 by lra.
      assert (Hlow : 1 - h <= exp (- h)).
      { pose proof (exp_ineq1_le (- h)). lra. }
      rewrite Rabs_pos_eq; lra.
  - apply not_continuous_by_gap with (g := 4); [lra|].
    intros d Hd.
    set (h := Rmin d 1 / 2).
    assert (Hh : 0 < h <= 1 / 2 /\ h < d).
    { unfold h. pose proof (Rmin_l d 1). pose proof (Rmin_r d 1).
      assert (0 < Rmin d 1) by (apply Rmin_glb_lt; lra). lra. }
    exists (3 - h). split; [lra|]. split.
    + replace (3 - h - 3) with (- h) by lra. rewrite Rabs_Ropp, Rabs_pos_eq; lra.
    + rewrite conditional_value_square by lra.
      rewrite conditional_value_3.
      rewrite Rabs_pos_eq; nra.
Qed.

(** ** The nquad cell *)

Lemma opts0_three (a0 a1 a2 : R) (rest : list R) :
  NQuad.opts0 (a0 :: a1 :: a2 :: rest) = Return [NQuad.points a0 a1 a2].
Proof. reflexivity. Qed.

(** X8: the break point that [opts0] hands to the innermost integration
    (over x0, with the outer variables x1, x2, x3 as arguments) is the
    value of the lambda in [points], and it is exactly where the integrand
    jumps: [func] is its smooth part plus 1 above the point, plus 0 at and
    below it. *)
Theorem opts0_marks_the_jump_of_func (x0 x1 x2 x3 : R) :
  exists b : R,
    NQuad.opts0 [x1; x2; x3] = Return [b] /\
    b = NQuad.points x1 x2 x3 /\
    NQuad.func x0 x1 x2 x3 =
    x0 ^ 2 + x1 * x2 - x3 ^ 3 + sin x0 + (if Rltb b x0 then 1 else 0).
Proof.
  exists (NQuad.points x1 x2 x3).
  split; [apply opts0_three|]. split; [reflexivity|].
  unfold NQuad.func, NQuad.points. f_equal.
  rewrite (Rltb_eq_iff 0 (x0 - 0.2 * x3 - 0.5 - 0.25 * x1)
             (0.2 * x3 + 0.5 + 0.25 * x1) x0); [reflexivity|lra].
Qed.

(** X9: for outer variables inside their integration ranges the break
    point lies strictly inside the range [0, 1] of x0 (between 0.22 and
    0.95), so the jump is always met by the innermost integration. *)
Theorem break_point_inside_range (x1 x2 x3 : R) :
  NQuad.in_range 1 x1 -> NQuad.in_range 3 x3 ->
  exists b : R,
    NQuad.opts0 [x1; x2; x3] = Return [b] /\
    0.22 <= b <= 0.95 /\ NQuad.in_range 0 b.
Proof.
  unfold NQuad.in_range; simpl. intros H1 H3.
  exists (NQuad.points x1 x2 x3).
  split; [apply opts0_three|]. unfold NQuad.points. lra.
Qed.

Lemma break_point_inside_range_witness :
  exists b : R,
    NQuad.opts0 [0; 0.5; 0] = Return [b] /\
    0.22 <= b <= 0.95 /\ NQuad.in_range 0 b.
Proof.
  apply (break_point_inside_range 0 0.5 0);
    unfold NQuad.in_range; simpl; lra.
Defined.

(** X10: [opts0] raises IndexError exactly when it is called with fewer
    than three positional arguments; with three or more it reads only
    the first and the third. *)
Theorem opts0_arguments (args : list R) :
  (NQuad.opts0 args = Except PyIndexError <-> (length args < 3)%nat) /\
  (forall a0 a1 a2 rest a1' rest',
     args = a0 :: a1 :: a2 :: rest ->
     NQuad.opts0 args = NQuad.opts0 (a0 :: a1' :: a2 :: rest')).
Proof.
  split.
  - destruct args as [|a0 [|a1 [|a2 rest]]]; simpl;
      (split; [intros H; try lia; try discriminate|
               intros H; try reflexivity; try lia]).
  - intros a0 a1 a2 rest a1' rest' ->. reflexivity.
Qed.

(** ** The first-order ODE cell *)

Lemma exp_rate_deriv (r t : R) :
  derivable_pt_lim (fun s => exp (r * s)) t (r * exp (r * t)).
Proof.
  apply derivable_pt_lim_ext with (f := comp exp (mult_real_fct r id));
    [reflexivity|].
  replace (r * exp (r * t)) with (exp (mult_real_fct r id t) * (r * 1))
    by (unfold mult_real_fct, id; ring).
  apply derivable_pt_lim_comp; [|apply derivable_pt_lim_exp].
  apply derivable_pt_lim_scal, derivable_pt_lim_id.
Qed.

Lemma decay_constant_product (y : R -> R) :
  (forall t, derivable_pt_lim y t (Decay.derivative (y t) t)) ->
  forall t, y t * exp (2 * t) = y 0.
Proof.
  intros Hy t.
  set (g := (y * (fun s => exp (2 * s)))%F).
  assert (Hg : forall s, derivable_pt_lim g s 0).
  { intros s.
    replace 0 with (Decay.derivative (y s) s * exp (2 * s) +
                    y s * (2 * exp (2 * s)))
      by (unfold Decay.derivative; ring).
    exact (derivable_pt_lim_mult y (fun u => exp (2 * u)) s _ _
             (Hy s) (exp_rate_deriv 2 s)). }
  assert (pr : derivable g) by (intros s; exists 0; apply Hg).
  assert (Hc : constant g).
  { apply (null_derivative_1 g pr). intros s.
    apply derive_pt_eq_0, Hg. }
  specialize (Hc t 0). unfold g, mult_fct in Hc.
  rewrite Hc, Rmult_0_r, exp_0. ring.
Qed.

(** X11: the initial-value problem the cell hands to [odeint], y' =
    derivative(y, t) with y(0) = y0 = 1, has exactly one solution on the
    whole line, y(t) = exp (-2 t): a function solves the problem if and
    only if it is that one. *)
Theorem decay_unique_solution (y : R -> R) :
  ((forall t, derivable_pt_lim y t (Decay.derivative (y t) t)) /\
   y 0 = Decay.y0) <->
  (forall t, y t = exp (-2 * t)).
Proof.
  split.
  - intros [Hy H0] t.
    pose proof (decay_constant_product y Hy t) as Hc.
    rewrite H0 in Hc. unfold Decay.y0 in Hc.
    assert (He : exp (2 * t) * exp (-2 * t) = 1).
    { rewrite <- exp_plus. replace (2 * t + -2 * t) with 0 by lra.
      apply exp_0. }
    rewrite <- (Rmult_1_r (y t)), <- He, <- Rmult_assoc, Hc. ring.
  - intros Hy. split.
    + intros t. rewrite Hy. unfold Decay.derivative.
      apply derivable_pt_lim_ext with (f := fun s => exp (-2 * s));
        [intros s; symmetry; apply Hy|].
      apply exp_rate_deriv.
    + rewrite Hy, Rmult_0_r. apply exp_0.
Qed.

(** ** The damped mass-spring cells *)

Lemma sqrt_ratio_pos (k m : R) : 0 < m -> 0 < k -> 0 < sqrt (k / m).
Proof. intros Hm Hk. apply sqrt_lt_R0. now apply Rdiv_lt_0_compat. Qed.

Lemma spring_omega (k m : R) :
  0 < m -> 0 < k -> Spring.omega k m = Ok (Fin (sqrt (k / m))).
Proof.
  intros Hm Hk. unfold Spring.omega, py_truediv.
  rewrite Req_b_neq by lra. cbn [bind].
  rewrite fsqrt_Fin; [easy|]. left; now apply Rdiv_lt_0_compat.
Qed.

Lemma spring_eps (c k m : R) :
  0 < m -> 0 < k ->
  Spring.eps c k m = Ok (Fin (c / (2 * m * sqrt (k / m)))).
Proof.
  intros Hm Hk. unfold Spring.eps, py_truediv.
  rewrite Req_b_neq by lra. cbn [bind].
  rewrite fsqrt_Fin by (left; now apply Rdiv_lt_0_compat).
  pose proof (sqrt_ratio_pos k m Hm Hk).
  cbn [fmul]. rewrite fdiv_Fin; [easy|]. nra.
Qed.

Lemma spring_derivative_pair (x v t e w : R) :
  Spring.derivative [x; v] t e w = Return (v, - e * w * v - w ^ 2 * x).
Proof. reflexivity. Qed.

(** X12: for a positive mass and a positive spring constant the cells
    compute finite [eps] and [omega] with eps * omega = cviscous / (2 mass)
    and omega^2 = kspring / mass, so that [derivative] returns the velocity
    and the acceleration - (cviscous / (2 mass)) v - (kspring / mass) x:
    the damping term carries eps * omega (not 2 eps omega). *)
Theorem spring_vector_field (c k m : R) :
  0 < m -> 0 < k ->
  exists e w : R,
    Spring.eps c k m = Ok (Fin e) /\ Spring.omega k m = Ok (Fin w) /\
    e * w = c / (2 * m) /\ w ^ 2 = k / m /\
    forall x v t : R,
      Spring.derivative [x; v] t e w =
      Return (v, - (c / (2 * m)) * v - (k / m) * x).
Proof.
  intros Hm Hk.
  pose proof (sqrt_ratio_pos k m Hm Hk) as Hs.
  exists (c / (2 * m * sqrt (k / m))), (sqrt (k / m)).
  split; [now apply spring_eps|]. split; [now apply spring_omega|].
  assert (Hew : c / (2 * m * sqrt (k / m)) * sqrt (k / m) = c / (2 * m))
    by (field; lra).
  assert (Hww : sqrt (k / m) ^ 2 = k / m).
  { replace (sqrt (k / m) ^ 2) with (sqrt (k / m) * sqrt (k / m)) by ring.
    apply sqrt_sqrt. left; now apply Rdiv_lt_0_compat. }
  split; [exact Hew|]. split; [exact Hww|].
  intros x v t. rewrite spring_derivative_pair, Hww. do 2 f_equal.
  replace (- (c / (2 * m * sqrt (k / m))) * sqrt (k / m) * v)
    with (- (c / (2 * m * sqrt (k / m)) * sqrt (k / m)) * v) by ring.
  now rewrite Hew.
Qed.

Lemma spring_vector_field_witness :
  exists e w : R,
    Spring.eps Spring.cviscous Spring.kspring Spring.mass = Ok (Fin e) /\
    Spring.omega Spring.kspring Spring.mass = Ok (Fin w) /\
    e * w = Spring.cviscous / (2 * Spring.mass) /\
    w ^ 2 = Spring.kspring / Spring.mass /\
    forall x v t : R,
      Spring.derivative [x; v] t e w =
      Return (v, - (Spring.cviscous / (2 * Spring.mass)) * v
                 - (Spring.kspring / Spring.mass) * x).
Proof.
  apply (spring_vector_field Spring.cviscous Spring.kspring Spring.mass);
    unfold Spring.kspring, Spring.mass; lra.
Defined.

Lemma energy_deriv (x v : R -> R) (e w t dx dv : R) :
  derivable_pt_lim x t dx -> derivable_pt_lim v t dv ->
  derivable_pt_lim (fun s => Spring.energy w (x s) (v s)) t
    (w ^ 2 * x t * dx + v t * dv).
Proof.
  intros Hx Hv.
  apply derivable_pt_lim_ext with
    (f := mult_real_fct (/ 2)
            (mult_real_fct (w ^ 2) (x * x) + v * v)%F).
  { intros s. unfold Spring.energy, mult_real_fct, plus_fct, mult_fct.
    unfold Rdiv. ring. }
  replace (w ^ 2 * x t * dx + v t * dv)
    with (/ 2 * (w ^ 2 * (dx * x t + x t * dx) + (dv * v t + v t * dv)))
    by (field).
  apply derivable_pt_lim_scal, derivable_pt_lim_plus.
  - apply derivable_pt_lim_scal. now apply derivable_pt_lim_mult.
  - now apply derivable_pt_lim_mult.
Qed.

(** X13: along every trajectory that follows [derivative] (x' and v' are
    the two components it returns) the energy (omega^2 x^2 + v^2) / 2
    changes at the rate - eps omega v^2; with eps omega >= 0 it never
    increases with time. *)
Theorem spring_energy_never_increases (x v : R -> R) (e w : R) :
  (forall t, exists d : R * R,
      Spring.derivative [x t; v t] t e w = Return d /\
      derivable_pt_lim x t (fst d) /\ derivable_pt_lim v t (snd d)) ->
  (forall t,
      derivable_pt_lim (fun s => Spring.energy w (x s) (v s)) t
        (- e * w * v t ^ 2)) /\
  (0 <= e * w ->
   forall t1 t2, t1 <= t2 ->
     Spring.energy w (x t2) (v t2) <= Spring.energy w (x t1) (v t1)).
Proof.
  intros Hode.
  assert (HE : forall t,
             derivable_pt_lim (fun s => Spring.energy w (x s) (v s)) t
               (- e * w * v t ^ 2)).
  { intros t. destruct (Hode t) as (d & Hd & Hx & Hv).
    rewrite spring_derivative_pair in Hd. injection Hd as <-.
    simpl in Hx, Hv.
    replace (- e * w * v t ^ 2)
      with (w ^ 2 * x t * v t + v t * (- e * w * v t - w ^ 2 * x t)) by ring.
    now apply energy_deriv. }
  split; [exact HE|].
  intros Hew.
  set (E := fun s => Spring.energy w (x s) (v s)).
  assert (pr : derivable E) by (intros s; eexists; apply HE).
  apply (nonpos_derivative_1 E pr). intros s.
  rewrite (derive_pt_eq_0 _ _ _ (pr s) (HE s)).
  pose proof (pow2_ge_0 (v s)). nra.
Qed.

Lemma exp_opp_deriv (t : R) :
  derivable_pt_lim (fun s => exp (- s)) t (- exp (- t)).
Proof.
  replace (- exp (- t)) with (exp (- t) * -1) by ring.
  apply (derivable_pt_lim_comp (fun s => - s) exp).
  - replace (-1) with (Ropp 1) by lra.
    apply derivable_pt_lim_opp, derivable_pt_lim_id.
  - apply derivable_pt_lim_exp.
Qed.

Lemma spring_energy_never_increases_witness :
  0 <= 2 * 1 /\
  derivable_pt_lim
    (fun s => Spring.energy 1 (exp (- s)) (- exp (- s))) 0
    (- 2 * 1 * (- exp (- 0)) ^ 2) /\
  Spring.energy 1 (exp (- 1)) (- exp (- 1))
  <= Spring.energy 1 (exp (- 0)) (- exp (- 0)).
Proof.
  assert (Hew : 0 <= 2 * 1) by lra.
  assert (Hode : forall t, exists d : R * R,
             Spring.derivative [exp (- t); - exp (- t)] t 2 1 = Return d /\
             derivable_pt_lim (fun s => exp (- s)) t (fst d) /\
             derivable_pt_lim (fun s => - exp (- s)) t (snd d)).
  { intros t. exists (- exp (- t), exp (- t)).
    rewrite spring_derivative_pair.
    split; [f_equal; f_equal; ring|].
    split; [apply exp_opp_deriv|].
    replace (snd (- exp (- t), exp (- t))) with (- - exp (- t))
      by (simpl; ring).
    apply (derivable_pt_lim_opp (fun s => exp (- s))), exp_opp_deriv. }
  destruct (spring_energy_never_increases
              (fun s => exp (- s)) (fun s => - exp (- s)) 2 1 Hode)
    as [Hrate Hmono].
  split; [exact Hew|]. split; [exact (Hrate 0)|].
  apply (Hmono Hew 0 1). lra.
Defined.

(** X14: [derivative] raises IndexError exactly when the state has
    fewer than two entries; otherwise it reads only the first two and
    ignores the time. *)
Theorem spring_derivative_arguments (yvec : list R) (t e w : R) :
  (Spring.derivative yvec t e w = Except PyIndexError
   <-> (length yvec < 2)%nat) /\
  (forall x v rest t' rest',
     yvec = x :: v :: rest ->
     Spring.derivative yvec t e w = Spring.derivative (x :: v :: rest') t' e w).
Proof.
  split.
  - destruct yvec as [|x [|v rest]]; simpl;
      (split; [intros H; try lia; try discriminate|
               intros H; try reflexivity; try lia]).
  - intros x v rest t' rest' ->. reflexivity.
Qed.

(** ** The Fourier cells: the peak frequency *)

(** The pairs (frequency, power) at the positive frequencies, in order. *)
Lemma py_index_app {A : Type} (pre : list A) (x : A) (r : list A) :
  py_index (pre ++ x :: r) (length pre) = Return x.
Proof.
  unfold py_index. rewrite nth_error_app2 by lia.
  now rewrite Nat.sub_diag.
Qed.

Lemma take_where_pos (fs ps : list R) :
  length fs = length ps ->
  forall (pre_f pre_p : list R),
    length pre_p = length pre_f ->
    take_positions (pre_f ++ fs) (where_pos_from (length pre_f) fs)
    = Return (map fst (filter (fun fp => Rltb 0 (fst fp)) (combine fs ps)))
    /\
    take_positions (pre_p ++ ps) (where_pos_from (length pre_f) fs)
    = Return (map snd (filter (fun fp => Rltb 0 (fst fp)) (combine fs ps))).
Proof.
  revert ps. induction fs as [|f fs IH]; intros [|q ps] Hlen pre_f pre_p Hpre;
    try discriminate; [easy|].
  injection Hlen as Hlen.
  specialize (IH ps Hlen (pre_f ++ [f]) (pre_p ++ [q])).
  rewrite !length_app, <- !app_assoc in IH. simpl in IH.
  rewrite !Nat.add_1_r in IH.
  destruct (IH ltac:(lia)) as [IHf IHp].
  cbn [where_pos_from combine filter fst].
  destruct (Rltb 0 f); [|easy].
  cbn [take_positions map fst snd].
  rewrite py_index_app, <- Hpre, py_index_app, Hpre.
  cbn [obind]. rewrite IHf, IHp. easy.
Qed.

Lemma argmax_from_spec (a pre : list R) (best : nat) (bestv : R) :
  nth_error (pre ++ a) best = Some bestv ->
  (forall q, In q pre -> q <= bestv) ->
  exists v : R,
    nth_error (pre ++ a) (argmax_from best bestv (length pre) a) = Some v /\
    forall q, In q (pre ++ a) -> q <= v.
Proof.
  revert pre best bestv. induction a as [|x a IH]; intros pre best bestv Hb Hmax.
  - exists bestv. rewrite app_nil_r in *. easy.
  - cbn [argmax_from].
    specialize (IH (pre ++ [x])).
    rewrite length_app, <- app_assoc in IH. simpl in IH.
    rewrite Nat.add_1_r in IH.
    destruct (Rltb bestv x) eqn:E; Rbool.
    + apply IH.
      * rewrite nth_error_app2 by lia. now rewrite Nat.sub_diag.
      * intros q Hq. apply in_app_or in Hq. destruct Hq as [Hq|[<-|[]]];
          [apply Hmax in Hq|]; lra.
    + apply IH; [easy|].
      intros q Hq. apply in_app_or in Hq. destruct Hq as [Hq|[<-|[]]];
        [now apply Hmax|easy].
Qed.

Lemma argmax_spec (a : list R) :
  match argmax a with
  | Return i =>
      exists v : R, nth_error a i = Some v /\ forall q, In q a -> q <= v
  | Except e => e = PyValueError /\ a = []
  end.
Proof.
  destruct a as [|x a]; [easy|]. cbn [argmax].
  destruct (argmax_from_spec a [x] 0 x) as (v & Hv & Hmax).
  - reflexivity.
  - intros q [<-|[]]. lra.
  - exists v. split; [exact Hv|exact Hmax].
Qed.

Lemma peak_freq_spec (sample_freq power : list R) :
  length sample_freq = length power ->
  match Fourier.peak_freq sample_freq power with
  | Return p =>
      0 < p /\
      exists q : R,
        In (p, q) (combine sample_freq power) /\
        forall f q', In (f, q') (combine sample_freq power) ->
                     0 < f -> q' <= q
  | Except e => e = PyValueError /\ forall f, In f sample_freq -> f <= 0
  end.
Proof.
  intros Hlen. unfold Fourier.peak_freq, np_where_pos.
  destruct (take_where_pos sample_freq power Hlen [] [] eq_refl) as [Hf Hp].
  simpl in Hf, Hp. rewrite Hf, Hp. cbn [obind].
  set (pos := filter (fun fp => Rltb 0 (fst fp)) (combine sample_freq power)).
  pose proof (argmax_spec (map snd pos)) as Ha.
  destruct (argmax (map snd pos)) as [i|e]; cbn [obind].
  - destruct Ha as (v & Hv & Hmax).
    rewrite nth_error_map in Hv.
    destruct (nth_error pos i) as [[p q]|] eqn:Ei; [|discriminate].
    injection Hv as <-.
    unfold py_index. rewrite nth_error_map, Ei. simpl.
    apply nth_error_In in Ei. unfold pos in Ei.
    apply filter_In in Ei. destruct Ei as [Hin Hpos]. simpl in Hpos. Rbool.
    split; [exact Hpos|]. exists q. split; [exact Hin|].
    intros f q' Hin' Hf'. apply Hmax.
    apply in_map_iff. exists (f, q'). split; [reflexivity|].
    apply filter_In. split; [exact Hin'|]. now apply Rltb_true.
  - destruct Ha as [-> Hnil]. split; [reflexivity|].
    intros f Hin.
    destruct (Rle_or_lt f 0) as [Hle|Hlt]; [exact Hle|exfalso].
    apply In_nth_error in Hin. destruct Hin as [k Hk].
    assert (Hk' : (k < length power)%nat).
    { rewrite <- Hlen. apply nth_error_Some. congruence. }
    apply nth_error_Some in Hk'.
    destruct (nth_error power k) as [q|] eqn:Eq; [|easy].
    assert (Hin : In (f, q) pos).
    { apply filter_In. split; [|now apply Rltb_true].
      apply (nth_error_In _ k).
      clear -Hk Eq. revert power k Hk Eq.
      induction sample_freq as [|a l IH]; intros [|b pw] [|k] Hk Eq;
        try discriminate; simpl in *.
      - congruence.
      - now apply IH. }
    apply (in_map snd) in Hin. rewrite Hnil in Hin. easy.
Qed.

Lemma where_pos_none (fs : list R) (i : nat) :
  (forall f, In f fs -> f <= 0) -> where_pos_from i fs = [].
Proof.
  revert i. induction fs as [|f fs IH]; intros i Hneg; [reflexivity|].
  cbn [where_pos_from].
  rewrite (Rltb_eq_false 0 f) by (apply Hneg; now left).
  apply IH. intros g Hg. apply Hneg. now right.
Qed.

(** X15: on arrays of one length, [peak_freq] is a positive sample
    frequency whose power is the largest among the positive frequencies;
    the cell fails, with ValueError from [argmax], exactly when no sample
    frequency is positive. *)
Theorem peak_freq_is_the_strongest_positive (sample_freq power : list R) :
  length sample_freq = length power ->
  match Fourier.peak_freq sample_freq power with
  | Return p =>
      0 < p /\ In p sample_freq /\
      exists q : R,
        In q power /\ In (p, q) (combine sample_freq power) /\
        forall f q', In (f, q') (combine sample_freq power) ->
                     0 < f -> q' <= q
  | Except e =>
      e = PyValueError /\ np_where_pos sample_freq = [] /\
      forall f, In f sample_freq -> f <= 0
  end.
Proof.
  intros Hlen. pose proof (peak_freq_spec sample_freq power Hlen) as H.
  destruct (Fourier.peak_freq sample_freq power) as [p|e].
  - destruct H as (Hp & q & Hin & Hmax).
    split; [exact Hp|]. split; [now apply in_combine_l in Hin|].
    exists q. split; [now apply in_combine_r in Hin|]. easy.
  - destruct H as [-> Hneg]. split; [reflexivity|]. split; [|exact Hneg].
    now apply where_pos_none.
Qed.

Lemma peak_freq_is_the_strongest_positive_witness :
  match Fourier.peak_freq [0; 1; 2; -1] [5; 7; 3; 9] with
  | Return p =>
      0 < p /\ In p [0; 1; 2; -1] /\
      exists q : R,
        In q [5; 7; 3; 9] /\
        In (p, q) (combine [0; 1; 2; -1] [5; 7; 3; 9]) /\
        forall f q', In (f, q') (combine [0; 1; 2; -1] [5; 7; 3; 9]) ->
                     0 < f -> q' <= q
  | Except e =>
      e = PyValueError /\ np_where_pos [0; 1; 2; -1] = [] /\
      forall f, In f [0; 1; 2; -1] -> f <= 0
  end.
Proof.
  apply (peak_freq_is_the_strongest_positive [0; 1; 2; -1] [5; 7; 3; 9]).
  reflexivity.
Defined.

(** ** The Fourier cells: the sample frequencies *)

Lemma fftfreq_ints_length (n : nat) :
  (1 <= n)%nat -> length (fftfreq_ints n) = n.
Proof.
  intros Hn. unfold fftfreq_ints.
  rewrite length_app, !length_map, !length_seq.
  pose proof (Nat.div_mod_eq (n - 1) 2). pose proof (Nat.div_mod_eq n 2).
  pose proof (Nat.mod_upper_bound (n - 1) 2). pose proof (Nat.mod_upper_bound n 2).
  lia.
Qed.

Lemma fftfreq_ints_nth (n k : nat) :
  (k < n)%nat ->
  nth k (fftfreq_ints n) 0%Z =
  if (k <? (n - 1) / 2 + 1)%nat then Z.of_nat k
  else (Z.of_nat k - Z.of_nat n)%Z.
Proof.
  intros Hk. unfold fftfreq_ints.
  set (N := ((n - 1) / 2 + 1)%nat).
  assert (HN : (N + n / 2 = n)%nat).
  { unfold N.
    pose proof (Nat.div_mod_eq (n - 1) 2). pose proof (Nat.div_mod_eq n 2).
    pose proof (Nat.mod_upper_bound (n - 1) 2).
    pose proof (Nat.mod_upper_bound n 2). lia. }
  destruct (k <? N)%nat eqn:E.
  - apply Nat.ltb_lt in E.
    rewrite app_nth1 by now rewrite length_map, length_seq.
    change 0%Z with (Z.of_nat 0). rewrite map_nth, seq_nth by easy. lia.
  - apply Nat.ltb_ge in E.
    rewrite app_nth2 by now rewrite length_map, length_seq.
    rewrite length_map, length_seq.
    rewrite nth_indep with (d' := (Z.of_nat 0 - Z.of_nat (n / 2))%Z)
      by (rewrite length_map, length_seq; lia).
    rewrite (map_nth (fun i => (Z.of_nat i - Z.of_nat (n / 2))%Z)).
    rewrite seq_nth by lia. lia.
Qed.

Lemma fftfreq_ints_mirror (n k : nat) :
  (0 < k < n)%nat ->
  Z.abs (nth (n - k) (fftfreq_ints n) 0%Z) = Z.abs (nth k (fftfreq_ints n) 0%Z).
Proof.
  intros Hk. rewrite !fftfreq_ints_nth by lia.
  pose proof (Nat.div_mod_eq (n - 1) 2) as H1.
  pose proof (Nat.mod_upper_bound (n - 1) 2 ltac:(lia)) as H2.
  set (h := ((n - 1) / 2)%nat) in *. set (r := ((n - 1) mod 2)%nat) in *.
  clearbody h r.
  destruct (Nat.ltb_spec (n - k) (h + 1));
    destruct (Nat.ltb_spec k (h + 1)); lia.
Qed.

Lemma fftfreq_ok (n : nat) (d : R) :
  (1 <= n)%nat -> d <> 0 ->
  fftfreq n d =
  Return (map (fun k => IZR k * (1 / (INR n * d))) (fftfreq_ints n)).
Proof.
  intros Hn Hd. unfold fftfreq.
  rewrite Req_b_neq; [reflexivity|].
  apply Rmult_integral_contrapositive_currified; [|easy].
  apply not_0_INR. lia.
Qed.

Lemma fftfreq_nth (n k : nat) (d : R) :
  (k < n)%nat ->
  nth k (map (fun z => IZR z * (1 / (INR n * d))) (fftfreq_ints n)) 0 =
  IZR (nth k (fftfreq_ints n) 0%Z) * (1 / (INR n * d)).
Proof.
  intros Hk.
  set (F := fun z => IZR z * (1 / (INR n * d))).
  transitivity (nth k (map F (fftfreq_ints n)) (F 0%Z)).
  - apply nth_indep. rewrite length_map, fftfreq_ints_length; lia.
  - exact (map_nth F (fftfreq_ints n) 0%Z k).
Qed.

Lemma fftfreq_values (n : nat) (d : R) :
  (1 <= n)%nat -> 0 < d ->
  exists fs : list R,
    fftfreq n d = Return fs /\ length fs = n /\
    (forall k, (k < n)%nat ->
       nth k fs 0 =
       (if (k <? (n - 1) / 2 + 1)%nat then INR k else INR k - INR n)
       / (INR n * d)) /\
    (forall k, (k < n)%nat ->
       (0 < nth k fs 0 <-> (0 < k <= (n - 1) / 2)%nat)) /\
    (forall k, (0 < k < n)%nat ->
       Rabs (nth (n - k) fs 0) = Rabs (nth k fs 0)).
Proof.
  intros Hn Hd.
  exists (map (fun k => IZR k * (1 / (INR n * d))) (fftfreq_ints n)).
  split; [apply fftfreq_ok; [easy|lra]|].
  assert (Hnd : 0 < INR n * d).
  { apply Rmult_lt_0_compat; [apply lt_0_INR; lia|easy]. }
  split; [now rewrite length_map, fftfreq_ints_length|].
  assert (Hval : forall k, (k < n)%nat ->
            nth k (map (fun z => IZR z * (1 / (INR n * d))) (fftfreq_ints n)) 0
            = (if (k <? (n - 1) / 2 + 1)%nat then INR k else INR k - INR n)
              / (INR n * d)).
  { intros k Hk. rewrite fftfreq_nth, fftfreq_ints_nth by easy.
    destruct (k <? (n - 1) / 2 + 1)%nat.
    - rewrite <- INR_IZR_INZ. unfold Rdiv. ring.
    - rewrite minus_IZR, <- !INR_IZR_INZ. unfold Rdiv. ring. }
  split; [exact Hval|]. split.
  - intros k Hk. rewrite Hval by easy.
    destruct (k <? (n - 1) / 2 + 1)%nat eqn:E.
    + apply Nat.ltb_lt in E. split.
      * intros Hpos. split; [|lia].
        destruct k; [|lia]. simpl in Hpos. unfold Rdiv in Hpos.
        rewrite Rmult_0_l in Hpos. lra.
      * intros [Hk0 _]. apply Rdiv_lt_0_compat; [|easy].
        now apply lt_0_INR.
    + apply Nat.ltb_ge in E. split; [|lia].
      intros Hpos. exfalso.
      apply lt_INR in Hk.
      assert (Hneg : (INR k - INR n) * / (INR n * d) < 0).
      { assert (0 < / (INR n * d)) by now apply Rinv_0_lt_compat. nra. }
      unfold Rdiv in Hpos. lra.
  - intros k Hk. rewrite !fftfreq_nth by lia.
    rewrite !Rabs_mult, <- !abs_IZR, fftfreq_ints_mirror by easy.
    reflexivity.
Qed.

(** X16: for n >= 1 points and a spacing d > 0, [fftfreq] returns n
    frequencies: entry k is k / (n d) for k <= (n - 1) / 2 and
    (k - n) / (n d) after that, so the positive frequencies are exactly
    the entries 1 .. (n - 1) / 2, and entries k and n - k have the same
    absolute value; for n = 0 the call fails with ZeroDivisionError. *)
Theorem fftfreq_layout (n : nat) (d : R) :
  0 < d ->
  match fftfreq n d with
  | Return fs =>
      (1 <= n)%nat /\ length fs = n /\
      (forall k, (k < n)%nat ->
         nth k fs 0 =
         (if (k <? (n - 1) / 2 + 1)%nat then INR k else INR k - INR n)
         / (INR n * d)) /\
      (forall k, (k < n)%nat ->
         (0 < nth k fs 0 <-> (0 < k <= (n - 1) / 2)%nat)) /\
      (forall k, (0 < k < n)%nat ->
         Rabs (nth (n - k) fs 0) = Rabs (nth k fs 0))
  | Except e => e = PyZeroDivisionError /\ n = O
  end.
Proof.
  intros Hd. destruct n as [|m].
  - unfold fftfreq. simpl INR. rewrite Rmult_0_l, Req_b_refl. easy.
  - destruct (fftfreq_values (S m) d ltac:(lia) Hd) as (fs & -> & H).
    split; [lia|exact H].
Qed.

Lemma fftfreq_layout_witness :
  match fftfreq 400 Fourier.time_step with
  | Return fs =>
      (1 <= 400)%nat /\ length fs = 400%nat /\
      (forall k, (k < 400)%nat ->
         nth k fs 0 =
         (if (k <? (400 - 1) / 2 + 1)%nat then INR k else INR k - INR 400)
         / (INR 400 * Fourier.time_step)) /\
      (forall k, (k < 400)%nat ->
         (0 < nth k fs 0 <-> (0 < k <= (400 - 1) / 2)%nat)) /\
      (forall k, (0 < k < 400)%nat ->
         Rabs (nth (400 - k) fs 0) = Rabs (nth k fs 0))
  | Except e => e = PyZeroDivisionError /\ 400%nat = O
  end.
Proof.
  apply (fftfreq_layout 400 Fourier.time_step).
  unfold Fourier.time_step. lra.
Defined.

(** ** The Fourier cells: the filter *)

Lemma zero_where_length (m : list bool) (a : list complex) :
  length m = length a -> length (Fourier.zero_where m a) = length a.
Proof.
  revert a. induction m as [|b m IH]; intros [|c a] H; try discriminate;
    [reflexivity|].
  simpl. f_equal. apply IH. now injection H.
Qed.

Lemma zero_where_nth (m : list bool) (a : list complex) (k : nat) :
  length m = length a ->
  nth k (Fourier.zero_where m a) Czero =
  if nth k m false then Czero else nth k a Czero.
Proof.
  revert a k. induction m as [|b m IH]; intros [|c a] k H; try discriminate.
  - now destruct k.
  - destruct k; [reflexivity|]. simpl. apply IH. now injection H.
Qed.

Lemma mask_nth (fs : list R) (p : R) (k : nat) :
  (k < length fs)%nat ->
  nth k (Fourier.mask fs p) false = Rltb p (Rabs (nth k fs 0)).
Proof.
  intros Hk. unfold Fourier.mask.
  set (F := fun f => Rltb p (Rabs f)).
  transitivity (nth k (map F fs) (F 0)).
  - apply nth_indep. now rewrite length_map.
  - exact (map_nth F fs 0 k).
Qed.

Lemma high_freq_fft_ok (fs : list R) (p : R) (a : list complex) :
  length fs = length a ->
  Fourier.high_freq_fft fs p a = Return (Fourier.zero_where (Fourier.mask fs p) a).
Proof.
  intros H. unfold Fourier.high_freq_fft.
  now rewrite (proj2 (Nat.eqb_eq _ _) H).
Qed.

Lemma filtered_nth (fs : list R) (p : R) (a : list complex) (k : nat) :
  length fs = length a -> (k < length a)%nat ->
  nth k (Fourier.zero_where (Fourier.mask fs p) a) Czero =
  if Rltb p (Rabs (nth k fs 0)) then Czero else nth k a Czero.
Proof.
  intros H Hk.
  rewrite zero_where_nth by (unfold Fourier.mask; now rewrite length_map).
  rewrite mask_nth by lia. reflexivity.
Qed.

Lemma Cabs_zero : Cabs Czero = 0.
Proof.
  unfold Cabs, Czero; simpl.
  replace (0 * (0 * 1) + 0 * (0 * 1)) with 0 by ring. apply sqrt_0.
Qed.

Lemma Cabs_nonneg (c : complex) : 0 <= Cabs c.
Proof. apply sqrt_pos. Qed.

Lemma Cconj_zero : Cconj Czero = Czero.
Proof. unfold Cconj, Czero; simpl. f_equal. apply Ropp_0. Qed.

Lemma high_freq_fft_empty (p : R) (a : list complex) :
  Fourier.high_freq_fft [] p a = Return a.
Proof.
  unfold Fourier.high_freq_fft. simpl.
  destruct a; reflexivity.
Qed.

(** X17: the filter fails, with IndexError, exactly when the frequency
    array is not empty and its length differs from that of the transform.
    Otherwise it returns an array of the length of the transform in which
    no component has gained power, and filtering a second time changes
    nothing.  For a frequency array that is not empty a component is set
    to zero when the absolute value of its frequency is above
    [peak_freq] and is unchanged otherwise; an empty frequency array
    leaves the transform as it is, whatever its length. *)
Theorem low_pass_filter (sample_freq : list R) (peak_freq : R)
    (sig_fft : list complex) :
  match Fourier.high_freq_fft sample_freq peak_freq sig_fft with
  | Return out =>
      (sample_freq = [] \/ length sample_freq = length sig_fft) /\
      length out = length sig_fft /\
      (sample_freq = [] -> out = sig_fft) /\
      (sample_freq <> [] ->
       forall k, (k < length sig_fft)%nat ->
         nth k out Czero =
         if Rltb peak_freq (Rabs (nth k sample_freq 0)) then Czero
         else nth k sig_fft Czero) /\
      (forall k, Cabs (nth k out Czero) <= Cabs (nth k sig_fft Czero)) /\
      Fourier.high_freq_fft sample_freq peak_freq out = Return out
  | Except e =>
      e = PyIndexError /\ sample_freq <> [] /\
      length sample_freq <> length sig_fft
  end.
Proof.
  destruct sample_freq as [|f fs].
  { rewrite !high_freq_fft_empty.
    split; [now left|]. split; [reflexivity|]. split; [easy|].
    split; [easy|]. split; [intros k; lra|reflexivity]. }
  set (sample_freq := f :: fs).
  assert (Hne : sample_freq <> []) by easy.
  destruct (Nat.eq_dec (length sample_freq) (length sig_fft)) as [H|H].
  - rewrite high_freq_fft_ok by easy.
    set (out := Fourier.zero_where (Fourier.mask sample_freq peak_freq) sig_fft).
    assert (Hm : length (Fourier.mask sample_freq peak_freq) = length sig_fft)
      by (unfold Fourier.mask; now rewrite length_map).
    assert (Hlen : length out = length sig_fft)
      by now apply zero_where_length.
    assert (Hnth : forall k, (k < length sig_fft)%nat ->
              nth k out Czero =
              if Rltb peak_freq (Rabs (nth k sample_freq 0)) then Czero
              else nth k sig_fft Czero)
      by (intros k Hk; now apply filtered_nth).
    split; [now right|]. split; [exact Hlen|]. split; [easy|].
    split; [intros _; exact Hnth|]. split.
    + intros k. destruct (Nat.lt_ge_cases k (length sig_fft)) as [Hk|Hk].
      * rewrite Hnth by easy.
        destruct (Rltb peak_freq (Rabs (nth k sample_freq 0)));
          [rewrite Cabs_zero; apply Cabs_nonneg|lra].
      * rewrite !nth_overflow by lia. lra.
    + rewrite high_freq_fft_ok by congruence. f_equal.
      apply nth_ext with (d := Czero) (d' := Czero).
      * rewrite zero_where_length; congruence.
      * intros k Hk. rewrite zero_where_length in Hk by congruence.
        rewrite filtered_nth, Hnth by congruence.
        now destruct (Rltb peak_freq (Rabs (nth k sample_freq 0))).
  - unfold Fourier.high_freq_fft.
    rewrite (proj2 (Nat.eqb_neq _ _) H).
    unfold sample_freq at 1. simpl. easy.
Qed.

Lemma filtered_hermitian (n : nat) (fs : list R) (p : R) (a : list complex) :
  length fs = n -> length a = n ->
  (forall k, (0 < k < n)%nat -> Rabs (nth (n - k) fs 0) = Rabs (nth k fs 0)) ->
  hermitian a -> hermitian (Fourier.zero_where (Fourier.mask fs p) a).
Proof.
  intros Hfs Ha Hmirror Hherm k Hk.
  assert (Hm : length (Fourier.mask fs p) = length a)
    by (unfold Fourier.mask; rewrite length_map; congruence).
  rewrite zero_where_length in * by easy. rewrite Ha in *.
  assert (Hj : ((n - k) mod n < n)%nat) by (apply Nat.mod_upper_bound; lia).
  rewrite !filtered_nth by congruence.
  specialize (Hherm k). rewrite Ha in Hherm. specialize (Hherm Hk).
  assert (Hsame : Rabs (nth ((n - k) mod n) fs 0) = Rabs (nth k fs 0)).
  { destruct k as [|k'].
    - now rewrite Nat.sub_0_r, Nat.Div0.mod_same.
    - rewrite Nat.mod_small by lia. apply Hmirror. lia. }
  rewrite Hsame.
  destruct (Rltb p (Rabs (nth k fs 0))); [now rewrite Cconj_zero|exact Hherm].
Qed.

(** X18: the cells after the transform, for a spacing d > 0: on a
    transform of at least three entries they succeed, with a positive
    peak frequency, and return an array of the same length in which the
    constant component and every component at the peak frequency are
    unchanged; if the transform has the symmetry of the transform of a
    real signal, so has the filtered one (components are removed in
    mirror pairs).  With one or two entries there is no positive sample
    frequency and the cells fail with ValueError; with none, with
    ZeroDivisionError. *)
Theorem filter_cells_behaviour (sig_fft : list complex) (d : R) :
  0 < d ->
  match filter_cells sig_fft d with
  | Return out =>
      (3 <= length sig_fft)%nat /\
      length out = length sig_fft /\
      nth 0 out Czero = nth 0 sig_fft Czero /\
      (exists fs p,
          fftfreq (length sig_fft) d = Return fs /\
          Fourier.peak_freq fs (Fourier.power sig_fft) = Return p /\
          0 < p /\
          forall k, (k < length sig_fft)%nat -> nth k fs 0 = p ->
                    nth k out Czero = nth k sig_fft Czero) /\
      (hermitian sig_fft -> hermitian out)
  | Except e =>
      (e = PyZeroDivisionError /\ length sig_fft = O) \/
      (e = PyValueError /\ (1 <= length sig_fft <= 2)%nat)
  end.
Proof.
  intros Hd. unfold filter_cells.
  set (n := length sig_fft).
  destruct (Nat.eq_dec n 0) as [Hn0|Hn0].
  { rewrite Hn0. unfold fftfreq. simpl INR.
    rewrite Rmult_0_l, Req_b_refl. cbn [obind]. now left. }
  destruct (fftfreq_values n d ltac:(lia) Hd)
    as (fs & Hfs & Hlen & Hval & Hpos & Hmirror).
  rewrite Hfs. cbn [obind].
  assert (Hpl : length fs = length (Fourier.power sig_fft))
    by (unfold Fourier.power; rewrite length_map; exact Hlen).
  pose proof (peak_freq_spec fs (Fourier.power sig_fft) Hpl) as Hpeak.
  destruct (Fourier.peak_freq fs (Fourier.power sig_fft)) as [p|e] eqn:Ep;
    cbn [obind].
  - destruct Hpeak as (Hp & q & Hin & _).
    assert (H3 : (3 <= n)%nat).
    { apply in_combine_l, (In_nth _ _ 0) in Hin.
      destruct Hin as (k & Hk & Hkp). rewrite Hlen in Hk.
      assert (Hk0 : 0 < nth k fs 0) by lra.
      apply Hpos in Hk0; [|easy].
      pose proof (Nat.div_mod_eq (n - 1) 2).
      pose proof (Nat.mod_upper_bound (n - 1) 2 ltac:(lia)). lia. }
    rewrite high_freq_fft_ok by (unfold n in Hlen; congruence).
    assert (Hnth : forall k, (k < n)%nat ->
              nth k (Fourier.zero_where (Fourier.mask fs p) sig_fft) Czero =
              if Rltb p (Rabs (nth k fs 0)) then Czero
              else nth k sig_fft Czero)
      by (intros k Hk; now apply filtered_nth).
    split; [exact H3|].
    split; [apply zero_where_length; unfold Fourier.mask;
            now rewrite length_map|].
    split.
    { rewrite Hnth by lia. rewrite Hval by lia.
      replace (if (0 <? (n - 1) / 2 + 1)%nat then INR 0 else INR 0 - INR n)
        with 0.
      - unfold Rdiv. rewrite Rmult_0_l, Rabs_R0.
        now rewrite Rltb_eq_false by lra.
      - destruct (Nat.ltb_spec 0 ((n - 1) / 2 + 1)); [reflexivity|lia]. }
    split.
    { exists fs, p. split; [reflexivity|]. split; [exact Ep|].
      split; [exact Hp|].
      intros k Hk Hkp. rewrite Hnth by easy.
      rewrite Hkp, Rabs_pos_eq by lra. now rewrite Rltb_eq_false by lra. }
    now apply filtered_hermitian with (n := n).
  - destruct Hpeak as [-> Hneg]. right. split; [reflexivity|].
    split; [lia|].
    destruct (Nat.le_gt_cases n 2) as [H2|H2]; [exact H2|exfalso].
    assert (H1 : 0 < nth 1 fs 0).
    { apply Hpos; [lia|].
      pose proof (Nat.div_mod_eq (n - 1) 2).
      pose proof (Nat.mod_upper_bound (n - 1) 2 ltac:(lia)). lia. }
    assert (Hin : In (nth 1 fs 0) fs) by (apply nth_In; lia).
    apply Hneg in Hin. lra.
Qed.

Lemma filter_cells_behaviour_witness :
  exists out : list complex,
    filter_cells [(1, 0); (0, 2); (3, 0); (0, -2)] Fourier.time_step
    = Return out /\
    length out = 4%nat /\ nth 0 out Czero = (1, 0).
Proof.
  assert (Hd : 0 < Fourier.time_step) by (unfold Fourier.time_step; lra).
  pose proof (filter_cells_behaviour [(1, 0); (0, 2); (3, 0); (0, -2)]
                Fourier.time_step Hd) as H.
  destruct (filter_cells [(1, 0); (0, 2); (3, 0); (0, -2)] Fourier.time_step)
    as [out|e].
  - exists out. split; [reflexivity|].
    destruct H as (_ & Hlen & H0 & _). split; [exact Hlen|exact H0].
  - exfalso. simpl in H. destruct H as [[_ H]|[_ H]]; [discriminate|lia].
Defined.

(** ** The diagonal matrix of the singular values *)

Lemma list_set_length {A : Type} (l : list A) (i : nat) (v : A) :
  length (list_set l i v) = length l.
Proof.
  revert i. induction l as [|x l IH]; intros [|i]; simpl; auto.
Qed.

Lemma list_set_nth {A : Type} (l : list A) (i k : nat) (v d : A) :
  nth k (list_set l i v) d =
  if ((k =? i) && (i <? length l))%nat then v else nth k l d.
Proof.
  revert i k. induction l as [|x l IH]; intros i k.
  - replace (i <? length (@nil A))%nat with false by now destruct i.
    rewrite Bool.andb_false_r. now destruct i.
  - destruct i as [|i], k as [|k]; simpl; try reflexivity.
    rewrite IH. reflexivity.
Qed.

Lemma np_zeros_filled (m n : nat) (S : list R) :
  diag_filled m n S 0 (np_zeros m n).
Proof.
  unfold diag_filled, np_zeros, entry.
  split; [apply repeat_length|]. split.
  - intros i Hi. rewrite nth_repeat_lt by easy. apply repeat_length.
  - intros i j Hi Hj. rewrite nth_repeat_lt, nth_repeat_lt by easy.
    now rewrite Bool.andb_false_r.
Qed.

Lemma set_item_filled (m n : nat) (S : list R) (t : nat) (D : matrix) :
  diag_filled m n S t D -> (t < m)%nat -> (t < n)%nat ->
  exists D', set_item D t t (nth t S 0) = Return D' /\
             diag_filled m n S (Datatypes.S t) D'.
Proof.
  intros (Hlen & Hrows & Hent) Hm Hn. unfold set_item.
  assert (Hrow : nth_error D t = Some (nth t D [])).
  { apply nth_error_nth'. lia. }
  rewrite Hrow, (proj2 (Nat.ltb_lt _ _)) by (rewrite Hrows; lia).
  eexists. split; [reflexivity|].
  split; [now rewrite list_set_length|]. split.
  - intros i Hi. rewrite list_set_nth.
    destruct ((i =? t) && (t <? length D))%nat eqn:E.
    + rewrite list_set_length. now apply Hrows.
    + now apply Hrows.
  - intros i j Hi Hj. unfold entry. rewrite list_set_nth.
    rewrite (proj2 (Nat.ltb_lt t (length D))) by lia.
    rewrite Bool.andb_true_r.
    destruct (Nat.eqb_spec i t) as [->|Hne].
    + rewrite list_set_nth, Hrows by easy.
      rewrite (proj2 (Nat.ltb_lt t n)) by easy. rewrite Bool.andb_true_r.
      destruct (Nat.eqb_spec j t) as [->|Hjt].
      * rewrite Nat.eqb_refl. simpl.
        now rewrite (proj2 (Nat.ltb_lt t (Datatypes.S t))) by lia.
      * rewrite (proj2 (Nat.eqb_neq t j)) by lia. simpl.
        specialize (Hent t j Hm Hj). unfold entry in Hent. rewrite Hent.
        now rewrite (proj2 (Nat.eqb_neq t j)) by lia.
    + specialize (Hent i j Hi Hj). unfold entry in Hent. rewrite Hent.
      destruct (Nat.eqb_spec i j) as [->|Hij]; simpl; [|reflexivity].
      destruct (Nat.ltb_spec j t), (Nat.ltb_spec j (Datatypes.S t));
        try reflexivity; lia.
Qed.

Lemma diag_loop_filled (m n : nat) (S : list R) (len start : nat)
    (D : matrix) :
  diag_filled m n S start D ->
  (start + len <= Nat.min m n)%nat -> (start + len <= length S)%nat ->
  exists D', diag_loop S D (seq start len) = Return D' /\
             diag_filled m n S (start + len) D'.
Proof.
  revert start D. induction len as [|len IH]; intros start D HD Hmn HS.
  - exists D. rewrite Nat.add_0_r. easy.
  - cbn [seq diag_loop]. unfold py_index.
    rewrite (nth_error_nth' S 0) by lia. cbn [obind].
    destruct (set_item_filled m n S start D HD) as (D1 & -> & HD1); [lia..|].
    cbn [obind].
    destruct (IH (Datatypes.S start) D1 HD1) as (D' & HD' & Hfill); [lia..|].
    exists D'. split; [exact HD'|].
    now replace (start + Datatypes.S len)%nat
      with (Datatypes.S start + len)%nat by lia.
Qed.

Lemma diag_loop_short (m n : nat) (S : list R) (len start : nat)
    (D : matrix) :
  diag_filled m n S start D ->
  (start + len <= Nat.min m n)%nat -> (start <= length S < start + len)%nat ->
  diag_loop S D (seq start len) = Except PyIndexError.
Proof.
  revert start D. induction len as [|len IH]; intros start D HD Hmn HS; [lia|].
  cbn [seq diag_loop]. unfold py_index.
  destruct (Nat.eq_dec start (length S)) as [He|Hne].
  - rewrite (proj2 (nth_error_None S start)) by lia. reflexivity.
  - rewrite (nth_error_nth' S 0) by lia. cbn [obind].
    destruct (set_item_filled m n S start D HD) as (D1 & -> & HD1); [lia..|].
    cbn [obind]. apply IH; [easy|lia..].
Qed.

(** X19: the loop that rebuilds D from the singular values returns the
    m x n matrix with S[i] at (i, i) for i < min(m, n) and 0 elsewhere,
    provided S has at least min(m, n) entries; with a shorter S it stops
    with IndexError. *)
Theorem svd_D_is_rectangular_diagonal (m n : nat) (S : list R) :
  match svd_D m n S with
  | Return D =>
      (Nat.min m n <= length S)%nat /\
      length D = m /\
      (forall i, (i < m)%nat -> length (nth i D []) = n) /\
      (forall i j, (i < m)%nat -> (j < n)%nat ->
         entry D i j = if (i =? j)%nat then nth i S 0 else 0)
  | Except e => e = PyIndexError /\ (length S < Nat.min m n)%nat
  end.
Proof.
  unfold svd_D.
  destruct (Nat.le_gt_cases (Nat.min m n) (length S)) as [Hle|Hgt].
  - destruct (diag_loop_filled m n S (Nat.min m n) 0 (np_zeros m n))
      as (D & -> & Hlen & Hrows & Hent);
      [apply np_zeros_filled|lia..|].
    split; [exact Hle|]. split; [exact Hlen|]. split; [exact Hrows|].
    intros i j Hi Hj. rewrite Hent by easy. simpl.
    destruct (Nat.eqb_spec i j) as [->|Hij]; simpl; [|reflexivity].
    now rewrite (proj2 (Nat.ltb_lt j (Nat.min m n))) by lia.
  - rewrite (diag_loop_short m n S (Nat.min m n) 0 (np_zeros m n));
      [easy|apply np_zeros_filled|lia..].
Qed.

(** ** The covariance matrix by hand *)

Lemma fmul_comm (x y : float64) : fmul x y = fmul y x.
Proof.
  destruct x, y; simpl; try reflexivity. f_equal. ring.
Qed.

Lemma row_dot_comm (a b : list float64) : row_dot a b = row_dot b a.
Proof.
  unfold row_dot. f_equal.
  revert b. induction a as [|x a IH]; intros [|y b]; simpl; try reflexivity.
  now rewrite fmul_comm, IH.
Qed.

Lemma row_dot_self (a : list float64) :
  row_dot a a = np_sum (map (fun x => fmul x x) a).
Proof.
  unfold row_dot. f_equal.
  induction a as [|x a IH]; simpl; [reflexivity|]. now rewrite IH.
Qed.

Lemma cov_by_hand_entry (v : list (list R)) (p : BinNums.Z) (i j : nat) :
  (i < length v)%nat -> (j < length v)%nat ->
  fentry (cov_by_hand v p) i j =
  fdiv (row_dot (center (nth i v [])) (center (nth j v [])))
       (Fin (IZR (p - 1))).
Proof.
  intros Hi Hj. unfold fentry, cov_by_hand.
  set (w := map center v).
  set (F := fun wi => map (fun wj => fdiv (row_dot wi wj) (Fin (IZR (p - 1)))) w).
  assert (Hw : length w = length v) by (unfold w; apply length_map).
  rewrite (nth_indep (map F w) [] (F [])) by (rewrite length_map; lia).
  rewrite (map_nth F w [] i). unfold F at 1.
  set (G := fun wj => fdiv (row_dot (nth i w []) wj) (Fin (IZR (p - 1)))).
  rewrite (nth_indep (map G w) NaN (G [])) by (rewrite length_map; lia).
  rewrite (map_nth G w [] j). unfold G, w.
  change (@nil float64) with (center []).
  now rewrite !(map_nth center v []).
Qed.

(** X20: the covariance matrix computed by hand is symmetric, and when
    the rows have [p] >= 1 entries its diagonal entry for a row is what
    [np.var(row, ddof=1)] returns for that row (NaN included, for
    p = 1). *)
Theorem cov_by_hand_symmetric_with_variances
    (v : list (list R)) (p : BinNums.Z) (i j : nat) :
  (i < length v)%nat -> (j < length v)%nat ->
  fentry (cov_by_hand v p) i j = fentry (cov_by_hand v p) j i /\
  (Z.of_nat (length (nth i v [])) = p -> (1 <= p)%Z ->
   fentry (cov_by_hand v p) i i = np_var (nth i v []) 1).
Proof.
  intros Hi Hj. split.
  - rewrite !cov_by_hand_entry by easy. now rewrite row_dot_comm.
  - intros Hp H1. rewrite cov_by_hand_entry by easy.
    rewrite row_dot_self. unfold np_var, center, np_mean.
    rewrite INR_IZR_INZ, Hp.
    now replace (Z.max (p - 1) 0) with (p - 1)%Z by lia.
Qed.

Lemma cov_by_hand_symmetric_with_variances_witness :
  fentry (cov_by_hand [[1; 2; 6]; [4; 4; 7]] 3) 0 1
  = fentry (cov_by_hand [[1; 2; 6]; [4; 4; 7]] 3) 1 0 /\
  fentry (cov_by_hand [[1; 2; 6]; [4; 4; 7]] 3) 0 0 = np_var [1; 2; 6] 1.
Proof.
  destruct (cov_by_hand_symmetric_with_variances
              [[1; 2; 6]; [4; 4; 7]] 3 0 1) as [H1 H2];
    [simpl; lia..|].
  split; [exact H1|]. apply H2; [reflexivity|lia].
Defined.
